(** * LastModule (calc_service): orchestrator, storage and agent

    A shallow embedding of the Go sources

      - internal/orchestrator/orchestrator.go  (configuration, HTTP handlers,
        the task decomposer [Tasks]),
      - the storage package (SQL statements of [CreateExpression],
        [UpdateExpression], [GetPendingTask], [CompleteTask]),
      - the agent package ([Worker], [Calculations]),

    followed by the properties of the decomposition-and-dispatch core.

    Conventions.  Go [int]/[int64] values are integers in [Z] with the
    two's-complement wrap-around written out ([wrap64]); [float64] is the
    primitive binary64 type; Go strings are byte strings ([string]); Go maps
    are [gmap]s; a slice is a [list].  Code that mutates the state of the
    orchestrator or of the database is written in state-passing style: every
    operation takes the state and returns the new state next to its result.
    [time.Now()] and SQL [NOW()] are an explicit argument [now]. *)

From Stdlib Require Import ZArith String Ascii List Floats Lia Bool.
From stdpp Require Import base option list gmap strings pretty.
Import ListNotations.

Local Open Scope Z_scope.

(* ================================================================== *)
(** * 1. Go runtime and library functions used by the sources          *)
(* ================================================================== *)

Definition MinInt64 : Z := - 2 ^ 63.
Definition MaxInt64 : Z := 2 ^ 63 - 1.

(** Two's-complement wrap-around of a 64-bit signed integer. *)
Definition wrap64 (z : Z) : Z := (z + 2 ^ 63) mod 2 ^ 64 - 2 ^ 63.

(** [fmt.Sprintf("%d", n)]: the decimal rendering of an integer. *)
Definition Sprintf_d (n : Z) : string := pretty n.

(** [os.Getenv]: the value of the variable, or the empty string when it is
    not set. *)
Definition Getenv (env : gmap string string) (key : string) : string :=
  default ""%string (env !! key).

Definition is_digit (c : ascii) : bool :=
  let n := Z.of_nat (nat_of_ascii c) in (48 <=? n) && (n <=? 57).

Definition digit_value (c : ascii) : Z := Z.of_nat (nat_of_ascii c) - 48.

(** The value of a string of decimal digits, [None] when a byte is not a
    digit. *)
Fixpoint digits_value (acc : Z) (s : string) : option Z :=
  match s with
  | EmptyString => Some acc
  | String c rest =>
      if is_digit c then digits_value (acc * 10 + digit_value c) rest
      else None
  end.

Definition MaxUint64 : Z := 2 ^ 64 - 1.

(** The two errors of [strconv]. *)
Inductive NumError : Type := ErrSyntax | ErrRange.

(** The loop of [strconv.ParseUint] in base 10 with 64 bits: the bytes are
    read from the left, and the loop returns at the first byte that is no
    digit (syntax error) or at the first digit with which the value leaves
    the [uint64] range (range error), whatever comes after it. *)
Fixpoint ParseUint_loop (n : Z) (s : string) : Z + NumError :=
  match s with
  | EmptyString => inl n
  | String c rest =>
      if negb (is_digit c) then inr ErrSyntax
      else if MaxUint64 / 10 + 1 <=? n then inr ErrRange
      else
        let n1 := n * 10 + digit_value c in
        if MaxUint64 <? n1 then inr ErrRange
        else ParseUint_loop n1 rest
  end.

Definition ParseUint (s : string) : Z + NumError :=
  match s with
  | EmptyString => inr ErrSyntax
  | _ => ParseUint_loop 0 s
  end.

(** [strconv.Atoi] on a 64-bit platform, that is [strconv.ParseInt(s, 10, 0)]
    (the fast path of [Atoi] for short texts gives the same results).  The
    result is the pair of the returned integer and the error flag.  A syntax
    error returns 0; a range error returns the bound of [int64] on the side
    of the sign. *)
Definition Atoi (s : string) : Z * bool :=
  let '(neg, body) :=
    match s with
    | String "-"%char rest => (true, rest)
    | String "+"%char rest => (false, rest)
    | _ => (false, s)
    end in
  match ParseUint body with
  | inr ErrSyntax => (0, true)
  | inr ErrRange => (if neg then MinInt64 else MaxInt64, true)
  | inl un =>
      if negb neg && (2 ^ 63 <=? un) then (MaxInt64, true)
      else if neg && (2 ^ 63 <? un) then (MinInt64, true)
      else (if neg then - un else un, false)
  end.

(** Go's [s[n:]]: it panics (here [None]) when [n] exceeds the length. *)
Fixpoint slice_from (n : nat) (s : string) : option string :=
  match n, s with
  | O, _ => Some s
  | S _, EmptyString => None
  | S m, String _ rest => slice_from m rest
  end.

(** [strings.TrimPrefix]. *)
Definition TrimPrefix (s pre : string) : string :=
  if String.prefix pre s
  then String.substring (String.length pre)
         (String.length s - String.length pre)%nat s
  else s.

(* ================================================================== *)
(** * 2. orchestrator.go: configuration                                *)
(* ================================================================== *)

Record Config : Type := mkConfig {
  Addr : string;
  TimeAddition : Z;
  TimeSubtraction : Z;
  TimeMultiplications : Z;
  TimeDivisions : Z
}.

(** One operator cost as [Configuration] reads it: the error of [Atoi] is
    dropped, and only the value 0 is replaced by the default. *)
Definition time_setting (env : gmap string string) (key : string) : Z :=
  let t := fst (Atoi (Getenv env key)) in
  if t =? 0 then 100 else t.

Definition Configuration (env : gmap string string) : Config :=
  let port := Getenv env "PORT" in
  let port := if String.eqb port "" then "8080"%string else port in
  let ta := time_setting env "TIME_ADDITION_MS" in
  let ts := time_setting env "TIME_SUBTRACTION_MS" in
  let tm := time_setting env "TIME_MULTIPLICATIONS_MS" in
  let td := time_setting env "TIME_DIVISIONS_MS" in
  {| Addr := port;
     TimeAddition := ta;
     TimeSubtraction := ts;
     TimeMultiplications := tm;
     TimeDivisions := td |}.

(* ================================================================== *)
(** * 3. Data model                                                    *)
(* ================================================================== *)

(** Modelled from the spec: the declaration of the struct [ASTNode] is not
    part of the sources at hand.  Its fields are the ones that [Tasks] and
    [expressionIDHandler] read and write ([IsLeaf], [Value], [Operator],
    [Left], [Right], [TaskScheduled]); the spec (section 3) describes the
    same node.  A value of this type is a pointer [*ASTNode]: [nil_node] is
    the nil pointer. *)
Inductive ASTNode : Type :=
| nil_node : ASTNode
| Node (IsLeaf : bool) (Value : float) (Operator : string)
       (Left Right : ASTNode) (TaskScheduled : bool) : ASTNode.

(** A leaf as the parser builds it, and an operator node. *)
Definition Leaf (v : float) : ASTNode :=
  Node true v ""%string nil_node nil_node false.
Definition Internal (op : string) (l r : ASTNode) : ASTNode :=
  Node false 0%float op l r false.

(** The address of a node inside the tree of an expression: the path from
    the root.  It stands for the pointer that [Task.Node] holds. *)
Inductive Dir : Type := L | R.
Abbreviation NodeRef := (list Dir).

Record Task : Type := mkTask {
  task_ID : string;
  task_ExprID : string;
  task_Arg1 : float;
  task_Arg2 : float;
  task_Operation : string;
  task_OperationTime : Z;
  task_Node : option NodeRef
}.

(** [orchestrator.Expression].  The orchestrator declares the fields [ID],
    [Expr], [Status], [Result], [AST]; the storage package also uses
    [UserID], [Expression] (the text, here [expr_Expr]) and [CreatedAt] of the
    same type. *)
Record Expression : Type := mkExpression {
  expr_ID : string;
  expr_UserID : Z;
  expr_Expr : string;
  expr_Status : string;
  expr_Result : option float;
  expr_CreatedAt : Z;
  expr_AST : ASTNode
}.

Definition set_expr_AST (e : Expression) (ast : ASTNode) : Expression :=
  mkExpression (expr_ID e) (expr_UserID e) (expr_Expr e) (expr_Status e)
               (expr_Result e) (expr_CreatedAt e) ast.

(** ** The SQL database behind [storage.Storage]

    The tables are lists of rows in insertion order; the columns are those of
    [Init] together with the ones the statements of the package name
    ([created_at], [result], [started_at]). *)

Record UserRow : Type := mkUserRow {
  ur_id : Z;
  ur_login : string;
  ur_password : string
}.

Record ExprRow : Type := mkExprRow {
  er_id : Z;
  er_user_id : Z;
  er_expression : string;
  er_status : string;
  er_result : option float;
  er_created_at : Z
}.

Record TaskRow : Type := mkTaskRow {
  tr_id : Z;
  tr_expression_id : Z;
  tr_arg1 : float;
  tr_arg2 : float;
  tr_operation : string;
  tr_operation_time : Z;
  tr_completed : bool;
  tr_result : option float;
  tr_started_at : option Z
}.

Record DB : Type := mkDB {
  users : list UserRow;
  expressions : list ExprRow;
  tasks : list TaskRow;
  expressions_seq : Z   (* AUTOINCREMENT: the largest id handed out *)
}.

Inductive error : Type :=
| ErrNotFound
| ErrAlreadyExists
| sql_ErrNoRows
| ErrOther (msg : string).

Record Orchestrator : Type := mkOrchestrator {
  OConfig : Config;
  Storage : DB;
  exprStore : gmap string Expression;
  taskStore : gmap string Task;
  taskQueue : list Task;
  exprCounter : Z;
  taskCounter : Z
}.

Definition set_Storage (o : Orchestrator) (db : DB) : Orchestrator :=
  mkOrchestrator (OConfig o) db (exprStore o) (taskStore o) (taskQueue o)
                 (exprCounter o) (taskCounter o).

Definition set_exprStore (o : Orchestrator) (m : gmap string Expression)
  : Orchestrator :=
  mkOrchestrator (OConfig o) (Storage o) m (taskStore o) (taskQueue o)
                 (exprCounter o) (taskCounter o).

(** [NewOrchestrator], with the storage the caller installs right after
    (as the integration test does). *)
Definition NewOrchestrator (env : gmap string string) (db : DB)
  : Orchestrator :=
  mkOrchestrator (Configuration env) db ∅ ∅ [] 0 0.

(* ================================================================== *)
(** * 4. orchestrator.go: the decomposer [Tasks]                       *)
(* ================================================================== *)

Definition opTime_of (c : Config) (op : string) : Z :=
  if String.eqb op "+" then TimeAddition c
  else if String.eqb op "-" then TimeSubtraction c
  else if String.eqb op "*" then TimeMultiplications c
  else if String.eqb op "/" then TimeDivisions c
  else 100.

(** The body of the inner [if]: a new task for the node at [path]. *)
Definition schedule (exprID : string) (path : NodeRef) (op : string)
    (a1 a2 : float) (o : Orchestrator) : Orchestrator :=
  let counter := wrap64 (taskCounter o + 1) in
  let taskID := Sprintf_d counter in
  let task := mkTask taskID exprID a1 a2 op (opTime_of (OConfig o) op)
                     (Some path) in
  mkOrchestrator (OConfig o) (Storage o) (exprStore o)
                 (<[taskID := task]> (taskStore o))
                 (taskQueue o ++ [task])
                 (exprCounter o) counter.

(** The closure [traverse] of [Tasks].  The node is mutated in place in the
    source ([node.TaskScheduled = true]); here the visited tree is returned
    with the flags it has after the visit. *)
Fixpoint traverse (exprID : string) (path : NodeRef) (node : ASTNode)
    (o : Orchestrator) : ASTNode * Orchestrator :=
  match node with
  | nil_node => (node, o)
  | Node isLeaf v op l r sched =>
      if isLeaf then (node, o)
      else
        let '(l', o1) := traverse exprID (path ++ [L]) l o in
        let '(r', o2) := traverse exprID (path ++ [R]) r o1 in
        match l', r' with
        | Node true a1 _ _ _ _, Node true a2 _ _ _ _ =>
            if negb sched
            then (Node isLeaf v op l' r' true, schedule exprID path op a1 a2 o2)
            else (Node isLeaf v op l' r' sched, o2)
        | _, _ => (Node isLeaf v op l' r' sched, o2)
        end
  end.

Definition Tasks (o : Orchestrator) (expr : Expression)
  : Expression * Orchestrator :=
  let '(ast, o') := traverse (expr_ID expr) [] (expr_AST expr) o in
  (set_expr_AST expr ast, o').

(* ================================================================== *)
(** * 5. The storage package                                           *)
(* ================================================================== *)

Inductive result (A : Type) : Type :=
| Ok (a : A)
| Err (e : error).
Arguments Ok {A} a.
Arguments Err {A} e.

(** ** The SQL engine: SQLite

    [NewStorage] opens the database with the driver [sqlite3], and no other
    driver is imported: the statements of the package are run by SQLite. *)

(** What a statement needs from the engine beyond the common core of SQL. *)
Inductive SQLFeature : Type :=
| ReturningClause        (* INSERT/UPDATE ... RETURNING *)
| BooleanLiteral         (* TRUE, FALSE *)
| LockingClause          (* SELECT ... FOR UPDATE SKIP LOCKED *)
| FunctionNOW.           (* NOW() *)

(** The grammar of SQLite has no locking clause, and SQLite has no function
    [NOW]; it has [RETURNING] and the boolean literals. *)
Definition sqlite3_has (f : SQLFeature) : bool :=
  match f with
  | ReturningClause | BooleanLiteral => true
  | LockingClause | FunctionNOW => false
  end.

(** SQLite compiles a statement before it runs it.  A statement that it can
    not compile fails as a whole, whatever the tables hold: [Exec] returns
    the error, and [QueryRow(...).Scan] returns it in place of a row.  The
    result is the message of the error, [None] when the statement is
    accepted. *)
Definition sqlite3_error (f : SQLFeature) : string :=
  match f with
  | LockingClause => "near FOR: syntax error"
  | FunctionNOW => "no such function: NOW"
  | _ => "SQL logic error"
  end.

Definition sqlite3_prepare (needs : list SQLFeature) : option string :=
  sqlite3_error <$> List.find (fun f => negb (sqlite3_has f)) needs.

(** *** A text compared with an INTEGER column

    In [WHERE id = ?] with a Go string bound to the parameter, SQLite reads
    the text as a number before it compares (NUMERIC affinity is applied to
    the operand that faces the INTEGER column): a text in the syntax of an
    integer or of a decimal literal, white space around it allowed, becomes
    that number; any other text stays a text and equals no integer. *)

Definition sqlite3Isspace (c : ascii) : bool :=
  let n := Z.of_nat (nat_of_ascii c) in
  (n =? 32) || ((9 <=? n) && (n <=? 13)).

Fixpoint skip_spaces (s : string) : string :=
  match s with
  | String c rest => if sqlite3Isspace c then skip_spaces rest else s
  | EmptyString => s
  end.

Definition read_sign (s : string) : bool * string :=
  match s with
  | String "-"%char rest => (true, rest)
  | String "+"%char rest => (false, rest)
  | _ => (false, s)
  end.

(** The value of the digits at the head of a text. *)
Fixpoint leading_digits (acc : Z) (s : string) : Z :=
  match s with
  | String c rest =>
      if is_digit c then leading_digits (acc * 10 + digit_value c) rest
      else acc
  | EmptyString => acc
  end.

(** The significand that [sqlite3AtoF] collects: digits are taken while the
    significand is below [(2^64 - 10) / 10]; a digit after that is dropped,
    and counts one power of ten when it stands before the point.  The result
    is the significand, the power of ten, the number of digits taken and the
    rest of the text. *)
Definition significand_limit : Z := (MaxUint64 - 9) / 10.

Fixpoint significand (fraction : bool) (sig d : Z) (n : nat) (s : string)
  : Z * Z * nat * string :=
  match s with
  | String c rest =>
      if is_digit c then
        if sig <? significand_limit
        then significand fraction (sig * 10 + digit_value c)
                         (if fraction then d - 1 else d) (S n) rest
        else significand fraction sig (if fraction then d else d + 1) n rest
      else (sig, d, n, s)
  | EmptyString => (sig, d, n, s)
  end.

(** The digits of the exponent: the value stops at 10000; the flag tells
    whether there was a digit. *)
Fixpoint exponent_digits (e : Z) (valid : bool) (s : string)
  : Z * bool * string :=
  match s with
  | String c rest =>
      if is_digit c
      then exponent_digits (if e <? 10000 then e * 10 + digit_value c else 10000)
                           true rest
      else (e, valid, s)
  | EmptyString => (e, valid, s)
  end.

(** A number as SQLite reads it from a text. *)
Inductive SQLNumber : Type :=
| SQLInteger (z : Z)                       (* integer syntax *)
| SQLReal (neg : bool) (sig : Z) (exp : Z). (* (-) sig * 10^exp, to be rounded *)

(** [sqlite3AtoF] with the test of [applyNumericAffinity]: [None] when the
    text is no number (no digit, an exponent mark without digits, or
    anything but white space after the number).  [AtoF_number] reads what
    follows the sign. *)
Definition AtoF_number (neg : bool) (z : string) : option SQLNumber :=
  let value := leading_digits 0 z in
  let '(sig, d, n, z) := significand false 0 0 0 z in
  let '(point, (sig, d, n, z)) :=
    match z with
    | String "."%char rest => (true, significand true sig d n rest)
    | _ => (false, (sig, d, n, z))
    end in
  let '(mark, (e, valid, z)) :=
    match z with
    | String c rest =>
        if Ascii.eqb c "e" || Ascii.eqb c "E" then
          let '(eneg, rest') := read_sign rest in
          let '(e, valid, z') := exponent_digits 0 false rest' in
          (true, (if eneg then - e else e, valid, z'))
        else (false, (0, true, z))
    | EmptyString => (false, (0, true, z))
    end in
  match skip_spaces z with
  | EmptyString =>
      if (0 <? n)%nat && valid then
        if point || mark then Some (SQLReal neg sig (e + d))
        else Some (SQLInteger (if neg then - value else value))
      else None
  | _ => None
  end.

Definition sqlite3AtoF (text : string) : option SQLNumber :=
  let '(neg, z) := read_sign (skip_spaces text) in
  AtoF_number neg z.

(** The binary64 number nearest to [num / den] is the integer [x] (for
    [0 < x], [0 < num], [0 < den]; ties go to the even significand). *)
Definition rounds_to (x num den : Z) : bool :=
  let k := Z.log2 x in
  let up := Z.max 0 (54 - k) in
  let half_above := 2 ^ (k - 53 + up) in
  let half_below := if x =? 2 ^ k then 2 ^ (k - 54 + up) else half_above in
  let representable := (k <=? 52) || (x mod 2 ^ (k - 52) =? 0) in
  let even := (k <? 52) || Z.even (x / 2 ^ (k - 52)) in
  let lo := (x * 2 ^ up - half_below) * den in
  let hi := (x * 2 ^ up + half_above) * den in
  let v := num * 2 ^ up in
  representable &&
  (if even then (lo <=? v) && (v <=? hi) else (lo <? v) && (v <? hi)).

(** The float that a decimal literal is read as is the integer [id].  SQLite
    rounds [sig * 10^exp] to binary64; what it gets stands for a row id only
    when it is an integer strictly between the bounds of [int64]. *)
Definition real_text_is (id : Z) (neg : bool) (sig exp : Z) : bool :=
  let num := if 0 <=? exp then sig * 10 ^ exp else sig in
  let den := if 0 <=? exp then 1 else 10 ^ (- exp) in
  if id =? 0 then (num * 2 ^ 1075 <=? den)
  else
    (0 <? sig) && Bool.eqb neg (id <? 0) &&
    (MinInt64 <? id) && (id <? MaxInt64) && rounds_to (Z.abs id) num den.

(** [WHERE id = ?] on the INTEGER PRIMARY KEY with the text [arg] bound to
    the parameter. *)
Definition sql_id_eq (id : Z) (arg : string) : bool :=
  match sqlite3AtoF arg with
  | None => false
  | Some (SQLInteger z) => id =? z
  | Some (SQLReal neg sig exp) => real_text_is id neg sig exp
  end.

(** A Go [float64] bound to a parameter: SQLite stores NaN as NULL. *)
Definition sql_real (f : float) : option float :=
  if PrimFloat.is_nan f then None else Some f.

Definition set_tasks (db : DB) (ts : list TaskRow) : DB :=
  mkDB (users db) (expressions db) ts (expressions_seq db).

Definition set_expressions (db : DB) (es : list ExprRow) : DB :=
  mkDB (users db) es (tasks db) (expressions_seq db).

(** [CreateExpression]: [INSERT INTO expressions ... RETURNING id].  The
    insert fails when [user_id] names no row of [users] (foreign key). *)
Definition CreateExpression (db : DB) (userID : Z) (expr : string) (now : Z)
  : result (Expression * DB) :=
  if existsb (fun u => ur_id u =? userID) (users db) then
    let id := expressions_seq db + 1 in
    let row := mkExprRow id userID expr "pending" None now in
    Ok (mkExpression (Sprintf_d id) userID expr "pending" None now nil_node,
        mkDB (users db) (expressions db ++ [row]) (tasks db) id)
  else Err (ErrOther "create expression: FOREIGN KEY constraint failed").

(** [UpdateExpression]:
    [UPDATE expressions SET status = ?, result = ? WHERE id = ? AND user_id = ?]. *)
Definition UpdateExpression (db : DB) (e : Expression) : DB :=
  set_expressions db
    (map (fun r =>
            if sql_id_eq (er_id r) (expr_ID e) && (er_user_id r =? expr_UserID e)
            then mkExprRow (er_id r) (er_user_id r) (er_expression r)
                           (expr_Status e) (expr_Result e ≫= sql_real)
                           (er_created_at r)
            else r)
         (expressions db)).

(** The rows of
    [tasks t JOIN expressions e ON t.expression_id = e.id WHERE t.completed = FALSE],
    each with the [created_at] of its expression. *)
Definition pending_candidates (db : DB) : list (Z * TaskRow) :=
  flat_map
    (fun t =>
       if tr_completed t then []
       else map (fun e => (er_created_at e, t))
                (List.filter (fun e => er_id e =? tr_expression_id t)
                             (expressions db)))
    (tasks db).

(** [ORDER BY e.created_at ASC, t.id ASC]. *)
Definition order_le (a b : Z * TaskRow) : bool :=
  (fst a <? fst b) || ((fst a =? fst b) && (tr_id (snd a) <=? tr_id (snd b))).

(** [LIMIT 1] after the ordering: the first row in the order. *)
Fixpoint first_in_order (l : list (Z * TaskRow)) : option (Z * TaskRow) :=
  match l with
  | [] => None
  | c :: rest =>
      match first_in_order rest with
      | None => Some c
      | Some d => if order_le c d then Some c else Some d
      end
  end.

Definition set_started_at (r : TaskRow) (now : Z) : TaskRow :=
  mkTaskRow (tr_id r) (tr_expression_id r) (tr_arg1 r) (tr_arg2 r)
            (tr_operation r) (tr_operation_time r) (tr_completed r)
            (tr_result r) (Some now).

(** [GetPendingTask]: the select, which ends in [FOR UPDATE SKIP LOCKED],
    then [UPDATE tasks SET started_at = NOW() WHERE id = ?].  An error of a
    statement that is not [sql.ErrNoRows] is returned as it is
    ([return nil, err]), and the deferred [Rollback] leaves the database
    unchanged. *)
Definition GetPendingTask (db : DB) (now : Z) : result (Task * DB) :=
  match sqlite3_prepare [BooleanLiteral; LockingClause] with
  | Some msg => Err (ErrOther msg)
  | None =>
      match first_in_order (pending_candidates db) with
      | None => Err ErrNotFound
      | Some (_, row) =>
          let t := mkTask (Sprintf_d (tr_id row))
                          (Sprintf_d (tr_expression_id row))
                          (tr_arg1 row) (tr_arg2 row) (tr_operation row)
                          (tr_operation_time row) None in
          match sqlite3_prepare [FunctionNOW] with
          | Some msg => Err (ErrOther msg)
          | None =>
              Ok (t, set_tasks db
                       (map (fun r => if sql_id_eq (tr_id r) (task_ID t)
                                      then set_started_at r now else r)
                            (tasks db)))
          end
      end
  end.

Definition set_completed (r : TaskRow) (res : float) : TaskRow :=
  mkTaskRow (tr_id r) (tr_expression_id r) (tr_arg1 r) (tr_arg2 r)
            (tr_operation r) (tr_operation_time r) true (sql_real res)
            (tr_started_at r).

Definition set_status (e : ExprRow) (status : string) : ExprRow :=
  mkExprRow (er_id e) (er_user_id e) (er_expression e) status (er_result e)
            (er_created_at e).

(** [CompleteTask].  An error leaves the transaction to the deferred
    [Rollback]: the database is unchanged. *)
Definition CompleteTask (db : DB) (taskID : string) (res : float) : result DB :=
  (* UPDATE tasks SET completed = TRUE, result = ? WHERE id = ?
     RETURNING expression_id *)
  match List.filter (fun r => sql_id_eq (tr_id r) taskID) (tasks db) with
  | [] => Err sql_ErrNoRows
  | row :: _ =>
      let exprID := tr_expression_id row in
      let tasks1 :=
        map (fun r => if sql_id_eq (tr_id r) taskID
                      then set_completed r res else r) (tasks db) in
      (* SELECT COUNT( * ) FROM tasks WHERE expression_id = ? AND completed = FALSE *)
      let pendingTasks :=
        length (List.filter
                  (fun r => (tr_expression_id r =? exprID) && negb (tr_completed r))
                  tasks1) in
      if Nat.eqb pendingTasks 0 then
        (* UPDATE expressions SET status = 'completed' WHERE id = ? *)
        Ok (mkDB (users db)
                 (map (fun e => if er_id e =? exprID
                                then set_status e "completed" else e)
                      (expressions db))
                 tasks1 (expressions_seq db))
      else Ok (set_tasks db tasks1)
  end.

(* ================================================================== *)
(** * 6. The agent package                                             *)
(* ================================================================== *)

Inductive calc_error : Type :=
| ErrDivisionByZero
| ErrInvalidOperator (operation : string).

Definition Calculations (operation : string) (a b : float)
  : float + calc_error :=
  if String.eqb operation "+" then inl (a + b)%float
  else if String.eqb operation "-" then inl (a - b)%float
  else if String.eqb operation "*" then inl (a * b)%float
  else if String.eqb operation "/" then
    if PrimFloat.eqb b 0%float then inr ErrDivisionByZero
    else inl (a / b)%float
  else inr (ErrInvalidOperator operation).

(** What one turn of the loop of [Worker] does, in order. *)
Inductive WorkerEvent : Type :=
| EvGetTask
| EvSleep (ms : Z)
| EvCompute (operation : string) (a b : float)
| EvSubmitResult (id : string) (res : float)
| EvLog (msg : string).

Section Worker.

(** The orchestrator as the worker sees it through [a.Client]: a state and
    the two remote calls. *)
Variable S : Type.
Variable Client_GetTask : S -> Z -> result Task * S.
Variable Client_SubmitResult : S -> string -> float -> result unit * S.

(** One turn of the [for] loop of [Worker]: the new state of the
    orchestrator and the trace of the turn.  Every branch ends in [continue]
    or at the end of the body, so the next turn starts from the returned
    state. *)
Definition Worker_turn (s : S) (now : Z) : S * list WorkerEvent :=
  match Client_GetTask s now with
  | (Err _, s1) =>
      (s1, [EvGetTask; EvLog "error getting task"; EvSleep 2000])
  | (Ok task, s1) =>
      if String.eqb (task_ID task) "" then (s1, [EvGetTask; EvSleep 1000])
      else
        let pre := [EvGetTask; EvLog "received task";
                    EvSleep (task_OperationTime task);
                    EvCompute (task_Operation task) (task_Arg1 task)
                              (task_Arg2 task)] in
        match Calculations (task_Operation task) (task_Arg1 task)
                           (task_Arg2 task) with
        | inr _ => (s1, pre ++ [EvLog "error computing task"])
        | inl res =>
            match Client_SubmitResult s1 (task_ID task) res with
            | (Err _, s2) =>
                (s2, pre ++ [EvSubmitResult (task_ID task) res;
                             EvLog "error submitting result"])
            | (Ok _, s2) =>
                (s2, pre ++ [EvSubmitResult (task_ID task) res;
                             EvLog "successfully completed task"])
            end
        end
  end.

End Worker.

(** ** The scheduler behind the client of the worker *)

Definition set_taskQueue (o : Orchestrator) (q : list Task) : Orchestrator :=
  mkOrchestrator (OConfig o) (Storage o) (exprStore o) (taskStore o) q
                 (exprCounter o) (taskCounter o).

Definition set_taskStore (o : Orchestrator) (m : gmap string Task)
  : Orchestrator :=
  mkOrchestrator (OConfig o) (Storage o) (exprStore o) m (taskQueue o)
                 (exprCounter o) (taskCounter o).

(** Modelled from the spec: the gRPC service that [a.Client] talks to is not
    part of the sources at hand.  The definitions from here to
    [Worker_turn_scheduler] follow the dispatch protocol of section 4.3 of
    the spec and the completion rule of section 4.4, on the in-memory state
    that [Tasks] fills.  The queue holds the tasks that are Pending; a task
    that the task store holds and the queue does not is Dispatched; a task
    that is Completed has left the bookkeeping.

    [FetchTask] pops the oldest Pending task, which is thereby Dispatched;
    on an empty queue it gives the explicit signal that there is no task. *)
Definition FetchTask (o : Orchestrator) : option Task * Orchestrator :=
  match taskQueue o with
  | [] => (None, o)
  | t :: q => (Some t, set_taskQueue o q)
  end.

(** The tree with the node at the address [p] turned from an operator node
    into a leaf with the value [v]. *)
Fixpoint resolve (node : ASTNode) (p : NodeRef) (v : float) : ASTNode :=
  match node with
  | Node false v0 op l r sched =>
      match p with
      | [] => Leaf v
      | L :: p' => Node false v0 op (resolve l p' v) r sched
      | R :: p' => Node false v0 op l (resolve r p' v) sched
      end
  | _ => node
  end.

(** The task is still in the queue: Pending, not Dispatched. *)
Definition in_queue (o : Orchestrator) (taskID : string) : bool :=
  existsb (fun t => String.eqb (task_ID t) taskID) (taskQueue o).

(** Section 4.4: an expression whose root is a leaf is completed with the
    value of the root. *)
Definition promote (e : Expression) : Expression :=
  match expr_AST e with
  | Node true v _ _ _ _ =>
      mkExpression (expr_ID e) (expr_UserID e) (expr_Expr e) "completed"
                   (Some v) (expr_CreatedAt e) (expr_AST e)
  | _ => e
  end.

(** [SubmitResult]: the task is looked up; when it is found and Dispatched,
    it is Completed and leaves the bookkeeping, the value is written into
    its node, the decomposer runs again on its expression, and the
    expression is completed when its root is a leaf now.  In every other
    case the answer is NotFound ([false]) and nothing changes.  (The
    scheduler of the spec owns the expression of every task; a task whose
    expression or node is missing counts as not found.) *)
Definition SubmitResult (o : Orchestrator) (taskID : string) (value : float)
  : bool * Orchestrator :=
  match taskStore o !! taskID with
  | None => (false, o)
  | Some t =>
      if in_queue o taskID then (false, o)
      else
        match exprStore o !! task_ExprID t, task_Node t with
        | Some e, Some p =>
            let o1 := set_taskStore o (delete taskID (taskStore o)) in
            let '(e1, o2) :=
              Tasks o1 (set_expr_AST e (resolve (expr_AST e) p value)) in
            (true,
             set_exprStore o2 (<[task_ExprID t := promote e1]> (exprStore o2)))
        | _, _ => (false, o)
        end
  end.

(** Submit expression (sections 2 and 6): the decomposer makes its first
    pass over the tree, and the scheduler keeps the expression. *)
Definition SubmitExpression (o : Orchestrator) (e : Expression) : Orchestrator :=
  let '(e1, o1) := Tasks o e in
  set_exprStore o1 (<[expr_ID e := e1]> (exprStore o1)).

(** The two calls as the worker sees them.  The signal that there is no
    task is not an error: it is the response with the zero values, whose id
    is empty. *)
Definition no_task : Task := mkTask "" "" 0 0 "" 0 None.

Definition rpc_GetTask (o : Orchestrator) (now : Z)
  : result Task * Orchestrator :=
  match FetchTask o with
  | (Some t, o') => (Ok t, o')
  | (None, o') => (Ok no_task, o')
  end.

Definition rpc_SubmitResult (o : Orchestrator) (id : string) (res : float)
  : result unit * Orchestrator :=
  match SubmitResult o id res with
  | (true, o') => (Ok tt, o')
  | (false, o') => (Err ErrNotFound, o')
  end.

(** A turn of a worker against this scheduler. *)
Definition Worker_turn_scheduler (o : Orchestrator) (now : Z)
  : Orchestrator * list WorkerEvent :=
  Worker_turn Orchestrator rpc_GetTask rpc_SubmitResult o now.

(* ================================================================== *)
(** * 7. The parser                                                    *)
(* ================================================================== *)

(** Modelled from the spec: [ParseAST] is called by [calculateHandler] but
    its file is not part of the sources at hand.  The handlers below take the
    parser as a parameter; this definition follows section 4.1 of the spec
    (four operators with the usual precedence, left associative, parentheses,
    integer or decimal literals; errors with a kind and the byte offset of
    the failing token) and serves to run the handlers on concrete texts. *)
Inductive ErrorKind : Type :=
| UnexpectedToken | ExpectedOperand | ExpectedOperator | UnbalancedParens
| EmptyInput.

Record ParseError : Type := mkParseError { kind : ErrorKind; position : Z }.

Inductive Token : Type :=
| TNum (v : float)
| TOp (op : string)
| TLParen
| TRParen
| TOther.

Definition float_of_Z (n : Z) : float := PrimFloat.of_uint63 (Uint63.of_Z n).

(** Reads the digits at the head of [s]: their value, their number, the rest. *)
Fixpoint read_digits (acc : Z) (n : nat) (s : string) : Z * nat * string :=
  match s with
  | String c rest =>
      if is_digit c then read_digits (acc * 10 + digit_value c) (S n) rest
      else (acc, n, s)
  | EmptyString => (acc, n, s)
  end.

(** A literal [digits] or [digits.digits] at the head of [s]; the result is
    its value, its length in bytes and the rest of the text. *)
Definition read_number (s : string) : float * nat * string :=
  let '(ip, n1, rest) := read_digits 0 0 s in
  match rest with
  | String "."%char rest' =>
      let '(fp, n2, rest'') := read_digits ip 0 rest' in
      match n2 with
      | O => (float_of_Z ip, n1, rest)
      | _ => ((float_of_Z fp / float_of_Z (10 ^ Z.of_nat n2))%float,
              (n1 + 1 + n2)%nat, rest'')
      end
  | _ => (float_of_Z ip, n1, rest)
  end.

Fixpoint tokenize (fuel : nat) (pos : Z) (s : string) : list (Token * Z) :=
  match fuel, s with
  | O, _ => []
  | _, EmptyString => []
  | S f, String c rest =>
      if is_digit c then
        let '(v, n, rest') := read_number s in
        (TNum v, pos) :: tokenize f (pos + Z.of_nat n) rest'
      else
        let t :=
          if Ascii.eqb c "+" || Ascii.eqb c "-" || Ascii.eqb c "*" || Ascii.eqb c "/"
          then TOp (String c EmptyString)
          else if Ascii.eqb c "(" then TLParen
          else if Ascii.eqb c ")" then TRParen
          else TOther in
        (t, pos) :: tokenize f (pos + 1) rest
  end.

Definition is_additive (op : string) : bool :=
  String.eqb op "+" || String.eqb op "-".
Definition is_multiplicative (op : string) : bool :=
  String.eqb op "*" || String.eqb op "/".

(** Recursive descent on the token list; [fuel] bounds the depth of the
    calls and [eof] is the offset of the end of the text. *)
Fixpoint parseExpr (fuel : nat) (eof : Z) (ts : list (Token * Z))
  : (ASTNode * list (Token * Z)) + ParseError :=
  match fuel with
  | O => inr (mkParseError UnexpectedToken eof)
  | S f =>
      match parseTerm f eof ts with
      | inr e => inr e
      | inl (lhs, rest) => exprLoop f eof lhs rest
      end
  end
with exprLoop (fuel : nat) (eof : Z) (lhs : ASTNode) (ts : list (Token * Z))
  : (ASTNode * list (Token * Z)) + ParseError :=
  match fuel with
  | O => inr (mkParseError UnexpectedToken eof)
  | S f =>
      match ts with
      | (TOp op, _) :: rest =>
          if is_additive op then
            match parseTerm f eof rest with
            | inr e => inr e
            | inl (rhs, rest') => exprLoop f eof (Internal op lhs rhs) rest'
            end
          else inl (lhs, ts)
      | _ => inl (lhs, ts)
      end
  end
with parseTerm (fuel : nat) (eof : Z) (ts : list (Token * Z))
  : (ASTNode * list (Token * Z)) + ParseError :=
  match fuel with
  | O => inr (mkParseError UnexpectedToken eof)
  | S f =>
      match parseFactor f eof ts with
      | inr e => inr e
      | inl (lhs, rest) => termLoop f eof lhs rest
      end
  end
with termLoop (fuel : nat) (eof : Z) (lhs : ASTNode) (ts : list (Token * Z))
  : (ASTNode * list (Token * Z)) + ParseError :=
  match fuel with
  | O => inr (mkParseError UnexpectedToken eof)
  | S f =>
      match ts with
      | (TOp op, _) :: rest =>
          if is_multiplicative op then
            match parseFactor f eof rest with
            | inr e => inr e
            | inl (rhs, rest') => termLoop f eof (Internal op lhs rhs) rest'
            end
          else inl (lhs, ts)
      | _ => inl (lhs, ts)
      end
  end
with parseFactor (fuel : nat) (eof : Z) (ts : list (Token * Z))
  : (ASTNode * list (Token * Z)) + ParseError :=
  match fuel with
  | O => inr (mkParseError UnexpectedToken eof)
  | S f =>
      match ts with
      | (TNum v, _) :: rest => inl (Leaf v, rest)
      | (TLParen, _) :: rest =>
          match parseExpr f eof rest with
          | inr e => inr e
          | inl (e, (TRParen, _) :: rest') => inl (e, rest')
          | inl (_, (_, p) :: _) => inr (mkParseError UnbalancedParens p)
          | inl (_, []) => inr (mkParseError UnbalancedParens eof)
          end
      | (_, p) :: _ => inr (mkParseError ExpectedOperand p)
      | [] => inr (mkParseError ExpectedOperand eof)
      end
  end.

Definition parse (text : string) : ASTNode + ParseError :=
  let n := String.length text in
  let ts := tokenize n 0 text in
  match ts with
  | [] => inr (mkParseError EmptyInput 0)
  | _ =>
      match parseExpr (5 * n + 5) (Z.of_nat n) ts with
      | inr e => inr e
      | inl (ast, []) => inl ast
      | inl (_, (TRParen, p) :: _) => inr (mkParseError UnbalancedParens p)
      | inl (_, (TNum _, p) :: _) => inr (mkParseError ExpectedOperator p)
      | inl (_, (TLParen, p) :: _) => inr (mkParseError ExpectedOperator p)
      | inl (_, (_, p) :: _) => inr (mkParseError UnexpectedToken p)
      end
  end.

(** The text of an error: [<message of the kind> at position <n>]. *)
Definition kind_message (k : ErrorKind) : string :=
  match k with
  | UnexpectedToken => "unexpected token"
  | ExpectedOperand => "expected number"
  | ExpectedOperator => "expected operator"
  | UnbalancedParens => "unbalanced parentheses"
  | EmptyInput => "empty expression"
  end.

Definition ParseError_Error (e : ParseError) : string :=
  (kind_message (kind e) +:+ " at position " +:+ Sprintf_d (position e))%string.

Definition ParseAST_spec (text : string) : ASTNode + string :=
  match parse text with
  | inl ast => inl ast
  | inr e => inr (ParseError_Error e)
  end.

(* ================================================================== *)
(** * 8. orchestrator.go: the HTTP handlers                            *)
(* ================================================================== *)

(** The JSON object of a request body after [Decode] into the anonymous
    struct of a handler: a field that is absent has the zero value. *)
Record DecodedBody : Type := mkBody {
  json_expression : string;
  json_id : string;
  json_result : float
}.

(** A request: [Body] is [None] when [Decode] fails; [ctx_userID] is the
    value stored under ["userID"] in the context. *)
Record Request : Type := mkRequest {
  Method : string;
  URLPath : string;
  Authorization : string;
  ctx_userID : option Z;
  Body : option DecodedBody
}.

Definition with_userID (r : Request) (userID : Z) : Request :=
  mkRequest (Method r) (URLPath r) (Authorization r) (Some userID) (Body r).

Inductive Payload : Type :=
| JSONError (msg : string)           (* {"error": msg} *)
| JSONId (id : string)               (* {"id": id} *)
| JSONExpression (e : Expression)    (* {"expression": e} *)
| JSONTask (t : Task)                (* {"task": t} *)
| JSONStatus (s : string).           (* {"status": s} *)

Record Response : Type := mkResponse { StatusCode : Z; Content : Payload }.

(** A handler either answers, leaving a new state, or panics. *)
Inductive HandlerResult : Type :=
| Responded (o : Orchestrator) (resp : Response)
| Panicked.

Definition Handler : Type := Orchestrator -> Z -> Request -> HandlerResult.

Definition StatusOK : Z := 200.
Definition StatusCreated : Z := 201.
Definition StatusUnauthorized : Z := 401.
Definition StatusNotFound : Z := 404.
Definition StatusMethodNotAllowed : Z := 405.
Definition StatusUnprocessableEntity : Z := 422.
Definition StatusInternalServerError : Z := 500.

Definition http_Error (o : Orchestrator) (msg : string) (code : Z)
  : HandlerResult :=
  Responded o (mkResponse code (JSONError msg)).

(** Modelled from the spec: [auth.GetUserIDFromContext] belongs to the auth
    package, which is not part of the sources at hand (the spec treats the
    handling of tokens as a collaborator that supplies the id of the owner).
    It returns the user id that [authMiddleware] stored in the context, 0
    when there is none. *)
Definition GetUserIDFromContext (r : Request) : Z := default 0 (ctx_userID r).

Section Handlers.

(** The two functions of files that are not at hand: the parser and the
    token check of the auth package ([None] for an invalid token). *)
Variable ParseAST : string -> ASTNode + string.
Variable ParseJWT : string -> option Z.

Definition authMiddleware (next : Handler) : Handler :=
  fun o now r =>
    if String.eqb (URLPath r) "/api/v1/login"
       || String.eqb (URLPath r) "/api/v1/register"
    then next o now r
    else
      let authHeader := Authorization r in
      if String.eqb authHeader "" then
        http_Error o "Authorization header is required" StatusUnauthorized
      else
        let tokenString := TrimPrefix authHeader "Bearer " in
        if String.eqb tokenString "" then
          http_Error o "Invalid authorization header format" StatusUnauthorized
        else
          match ParseJWT tokenString with
          | None => http_Error o "Invalid token" StatusUnauthorized
          | Some userID => next o now (with_userID r userID)
          end.

Definition calculateHandler : Handler :=
  fun o now r =>
    let userID := GetUserIDFromContext r in
    match Body r with
    | None => http_Error o "Invalid Body" StatusUnprocessableEntity
    | Some req =>
        match CreateExpression (Storage o) userID (json_expression req) now with
        | Err _ =>
            http_Error o "Failed to create expression" StatusInternalServerError
        | Ok (expr, db1) =>
            let o1 := set_Storage o db1 in
            match ParseAST (json_expression req) with
            | inr err =>
                let db2 :=
                  UpdateExpression db1
                    (mkExpression (expr_ID expr) 0 "" "error" None 0 nil_node) in
                http_Error (set_Storage o db2) err StatusUnprocessableEntity
            | inl ast =>
                let '(_, o2) := Tasks o1 (set_expr_AST expr ast) in
                Responded o2 (mkResponse StatusCreated (JSONId (expr_ID expr)))
            end
        end
    end.

Definition expressionIDHandler : Handler :=
  fun o now r =>
    if negb (String.eqb (Method r) "GET") then
      http_Error o "Wrong Method" StatusMethodNotAllowed
    else
      match slice_from (String.length "/api/v1/expressions/") (URLPath r) with
      | None => Panicked
      | Some id =>
          match exprStore o !! id with
          | None => http_Error o "Expression not found" StatusNotFound
          | Some expr =>
              match expr_AST expr with
              | Node true v _ _ _ _ =>
                  (* the stored record is updated through the pointer *)
                  let expr' :=
                    mkExpression (expr_ID expr) (expr_UserID expr)
                      (expr_Expr expr) "completed" (Some v)
                      (expr_CreatedAt expr) (expr_AST expr) in
                  Responded (set_exprStore o (<[id := expr']> (exprStore o)))
                            (mkResponse StatusOK (JSONExpression expr'))
              | _ => Responded o (mkResponse StatusOK (JSONExpression expr))
              end
          end
      end.

Definition getTaskHandler : Handler :=
  fun o now r =>
    match GetPendingTask (Storage o) now with
    | Err ErrNotFound => http_Error o "No task available" StatusNotFound
    | Err _ => http_Error o "Internal error" StatusInternalServerError
    | Ok (task, db') =>
        Responded (set_Storage o db') (mkResponse StatusOK (JSONTask task))
    end.

Definition postTaskHandler : Handler :=
  fun o now r =>
    match Body r with
    | None => http_Error o "Invalid Body" StatusUnprocessableEntity
    | Some req =>
        match CompleteTask (Storage o) (json_id req) (json_result req) with
        | Err _ =>
            http_Error o "Failed to complete task" StatusInternalServerError
        | Ok db' =>
            Responded (set_Storage o db')
                      (mkResponse StatusOK (JSONStatus "result accepted"))
        end
    end.

(** ** The life of the server: a sequence of calls to the handlers *)

Inductive Endpoint : Type :=
| Calculate | ExpressionID | GetTask | PostTask.

Definition handler_of (e : Endpoint) : Handler :=
  match e with
  | Calculate => calculateHandler
  | ExpressionID => expressionIDHandler
  | GetTask => getTaskHandler
  | PostTask => postTaskHandler
  end.

(** One call; a panic in a handler is recovered by [net/http] and leaves
    the state as it was. *)
Definition serve (o : Orchestrator) (c : Endpoint * Z * Request)
  : Orchestrator :=
  let '(e, now, r) := c in
  match handler_of e o now r with
  | Responded o' _ => o'
  | Panicked => o
  end.

Definition run (o : Orchestrator) (calls : list (Endpoint * Z * Request))
  : Orchestrator :=
  fold_left serve calls o.

End Handlers.

(* ================================================================== *)
(** * 9. Definitions used by the statements                            *)
(* ================================================================== *)

(** ** Trees by address, ready nodes and their post-order *)

(** The number of operator nodes that a traversal can reach. *)
Fixpoint operator_nodes (node : ASTNode) : nat :=
  match node with
  | nil_node => 0
  | Node isLeaf _ _ l r _ =>
      if isLeaf then 0 else S (operator_nodes l + operator_nodes r)
  end.

(** The node at an address.  The walk goes through operator nodes only, as
    [traverse] does: below a leaf or a nil pointer there is nothing. *)
Fixpoint node_at (node : ASTNode) (p : NodeRef) : ASTNode :=
  match p with
  | [] => node
  | d :: p' =>
      match node with
      | Node false _ _ l r _ => node_at (match d with L => l | R => r end) p'
      | _ => nil_node
      end
  end.

(** The value of a leaf, [None] for an operator node or a nil pointer. *)
Definition leaf_value (node : ASTNode) : option float :=
  match node with
  | Node true v _ _ _ _ => Some v
  | _ => None
  end.

(** A node is ready when the test of [traverse] lets a task through: an
    operator node, both children leaves, no task scheduled yet. *)
Definition ready (node : ASTNode) : bool :=
  match node with
  | Node false _ _ (Node true _ _ _ _ _) (Node true _ _ _ _ _) sched =>
      negb sched
  | _ => false
  end.

(** The flag [TaskScheduled] of an operator node (false for anything else). *)
Definition scheduled (node : ASTNode) : bool :=
  match node with
  | Node false _ _ _ _ sched => sched
  | _ => false
  end.

(** The ready nodes of a tree in post-order, depth first and left to right:
    address, operator and the two operands. *)
Fixpoint ready_postorder (path : NodeRef) (node : ASTNode)
  : list (NodeRef * string * float * float) :=
  match node with
  | nil_node => []
  | Node isLeaf _ op l r sched =>
      if isLeaf then []
      else
        ready_postorder (path ++ [L]) l ++
        ready_postorder (path ++ [R]) r ++
        match l, r with
        | Node true a1 _ _ _ _, Node true a2 _ _ _ _ =>
            if negb sched then [(path, op, a1, a2)] else []
        | _, _ => []
        end
  end.

(** The last step of [traverse] at an operator node, in terms of the values
    of the children. *)
Definition emit_at (path : NodeRef) (op : string) (l r : ASTNode)
    (sched : bool) : list (NodeRef * string * float * float) :=
  match leaf_value l, leaf_value r with
  | Some a1, Some a2 => if negb sched then [(path, op, a1, a2)] else []
  | _, _ => []
  end.

(** The tasks for a list of ready nodes, numbered from the counter on. *)
Fixpoint numbered (c : Config) (exprID : string) (counter : Z)
    (rs : list (NodeRef * string * float * float)) : list Task :=
  match rs with
  | [] => []
  | (p, op, a1, a2) :: rest =>
      let counter' := wrap64 (counter + 1) in
      mkTask (Sprintf_d counter') exprID a1 a2 op (opTime_of c op) (Some p)
      :: numbered c exprID counter' rest
  end.

(** [schedule] for each ready node of a list, in the order of the list. *)
Definition schedule_all (exprID : string)
    (rs : list (NodeRef * string * float * float)) (o : Orchestrator)
  : Orchestrator :=
  fold_left (fun o x => let '(p, op, a1, a2) := x in schedule exprID p op a1 a2 o)
            rs o.

(** The tasks of the queue that belong to an expression. *)
Definition tasks_of (exprID : string) (q : list Task) : list Task :=
  List.filter (fun t => String.eqb (task_ExprID t) exprID) q.

(** ** The system that the dispatch protocol drives *)

(** The computation of the task fails at the worker. *)
Definition cannot_compute (t : Task) : bool :=
  match Calculations (task_Operation t) (task_Arg1 t) (task_Arg2 t) with
  | inr _ => true
  | inl _ => false
  end.

(** The task is for the node at [p] of the expression [eid], or for a node
    above it: its result is one that the node at [p] waits for, or one that
    waits for the node at [p]. *)
Definition blocks (eid : string) (p : NodeRef) (t : Task) : Prop :=
  task_ExprID t = eid /\ exists q, task_Node t = Some q /\ q `prefix_of` p.

(** The situation of the claim about failing computations, after the task
    [tid] for the node at [p] of the expression [eid] was handed out: the
    expression is [pending] and its node at [p] is an operator node with a
    task scheduled; the expressions are stored under their ids; no task of
    the bookkeeping other than [tid] is for the node or a node above it; no
    task in the queue is, nor the task that the bookkeeping holds under the
    id of a task in the queue. *)
Record stuck (o : Orchestrator) (eid : string) (p : NodeRef) (tid : string)
  : Prop := mkStuck {
  stuck_pending :
    exists e, exprStore o !! eid = Some e /\
              expr_Status e = "pending"%string /\
              scheduled (node_at (expr_AST e) p) = true;
  stuck_keys :
    forall k e, exprStore o !! k = Some e -> expr_ID e = k;
  stuck_store :
    forall id t, taskStore o !! id = Some t -> blocks eid p t -> id = tid;
  stuck_queue :
    forall t, In t (taskQueue o) ->
      ~ blocks eid p t /\
      forall t', taskStore o !! task_ID t = Some t' -> ~ blocks eid p t'
}.

(** One step of the system: a turn of some worker; a fetch on its own (by a
    worker that is lost before it answers, say); a result for a task other
    than [tid] from anywhere; the submission of another expression, under
    an id that is not in use. *)
Inductive sys_step (tid : string) : Orchestrator -> Orchestrator -> Prop :=
| step_worker (o : Orchestrator) (now : Z) :
    sys_step tid o (fst (Worker_turn_scheduler o now))
| step_fetch (o : Orchestrator) :
    sys_step tid o (snd (FetchTask o))
| step_submit_other (o : Orchestrator) (id : string) (value : float) :
    id <> tid -> sys_step tid o (snd (SubmitResult o id value))
| step_expression (o : Orchestrator) (e : Expression) :
    exprStore o !! expr_ID e = None -> sys_step tid o (SubmitExpression o e).

(** The trace of the turn of a worker that fetched [task] and could not
    compute it. *)
Definition failed_turn_trace (task : Task) : list WorkerEvent :=
  [EvGetTask; EvLog "received task"; EvSleep (task_OperationTime task);
   EvCompute (task_Operation task) (task_Arg1 task) (task_Arg2 task);
   EvLog "error computing task"].

(** The calls of a life of the server other than the creation of an
    expression. *)
Definition is_calculate (c : Endpoint * Z * Request) : bool :=
  match fst (fst c) with
  | Calculate => true
  | _ => false
  end.


(** The database that an operation of the storage returns, if any. *)
Definition CompleteTask_db (r : result DB) : option DB :=
  match r with
  | Ok db => Some db
  | Err _ => None
  end.

(** ** Fixtures: databases, requests and trees of the examples *)

Definition db_one_user : DB :=
  mkDB [mkUserRow 1 "testuser" "hash"] [] [] 0.

(** One pending expression [2+2] of user 1 with its single task. *)
Definition db_one_task : DB :=
  mkDB [mkUserRow 1 "testuser" "hash"]
       [mkExprRow 1 1 "2+2" "pending" None 10]
       [mkTaskRow 1 1 2 2 "+" 100 false None None]
       1.

(** The same after the task was completed with the result 4. *)
Definition db_task_done : DB :=
  mkDB [mkUserRow 1 "testuser" "hash"]
       [mkExprRow 1 1 "2+2" "completed" None 10]
       [mkTaskRow 1 1 2 2 "+" 100 true (Some 4%float) None]
       1.

(** A pending expression [10/0] (its task can not be computed) followed by
    the expression [2+2]. *)
Definition db_division_by_zero : DB :=
  mkDB [mkUserRow 1 "testuser" "hash"]
       [mkExprRow 1 1 "10/0" "pending" None 10;
        mkExprRow 2 1 "2+2" "pending" None 11]
       [mkTaskRow 1 1 10 0 "/" 100 false None None;
        mkTaskRow 2 2 2 2 "+" 100 false None None]
       2.

Definition calc_request (userID : Z) (text : string) : Request :=
  mkRequest "POST" "/api/v1/calculate" "" (Some userID)
            (Some (mkBody text "" 0%float)).

Definition result_request (id : string) (res : float) : Request :=
  mkRequest "POST" "/internal/task" "" None (Some (mkBody "" id res)).

Definition query_request (authorization id : string) : Request :=
  mkRequest "GET" ("/api/v1/expressions/" +:+ id) authorization None None.

(** A stand-in for the token check in the examples: the token is the
    decimal user id. *)
Definition jwt_decimal (token : string) : option Z :=
  let '(n, err) := Atoi token in
  if err || (n <=? 0) then None else Some n.

(** An orchestrator that holds the expression 7 of user 1 in its store. *)
Definition o_with_expression : Orchestrator :=
  set_exprStore (NewOrchestrator ∅ db_one_user)
    {[ "7"%string :=
         mkExpression "7" 1 "2+2" "pending" None 10
                      (Internal "+" (Leaf 2) (Leaf 2)) ]}.

(** The tree of [(1+2)*(3+4)] and the same with a task already scheduled for
    the left addition. *)
Definition ast_two_sums : ASTNode :=
  Internal "*" (Internal "+" (Leaf 1) (Leaf 2)) (Internal "+" (Leaf 3) (Leaf 4)).

Definition ast_left_scheduled : ASTNode :=
  Internal "*" (Node false 0 "+" (Leaf 1) (Leaf 2) true)
               (Internal "+" (Leaf 3) (Leaf 4)).

Definition expression_of (ast : ASTNode) : Expression :=
  mkExpression "1" 1 "" "pending" None 10 ast.

(** The tree of [2+2*2]. *)
Definition ast_2_plus_2_times_2 : ASTNode :=
  Internal "+" (Leaf 2) (Internal "*" (Leaf 2) (Leaf 2)).

(** The orchestrator after user 1 has submitted [2+2*2] at time 10. *)
Definition o_2_plus_2_times_2 : Orchestrator :=
  serve ParseAST_spec (NewOrchestrator ∅ db_one_user)
        (Calculate, 10, calc_request 1 "2+2*2").

(** The orchestrator over [db_division_by_zero]. *)
Definition o_division_by_zero : Orchestrator :=
  NewOrchestrator ∅ db_division_by_zero.

(** The scheduler after the expressions [10/0] and [2+2*2] were submitted,
    and its state after one, two and three turns of a worker. *)
Definition scheduler_division_by_zero : Orchestrator :=
  SubmitExpression
    (SubmitExpression (NewOrchestrator ∅ db_one_user)
       (mkExpression "1" 1 "10/0" "pending" None 10
                     (Internal "/" (Leaf 10) (Leaf 0))))
    (mkExpression "2" 1 "2+2*2" "pending" None 11 ast_2_plus_2_times_2).

(** The two tasks of the first pass of the decomposer. *)
Definition task_10_by_0 : Task := mkTask "1" "1" 10 0 "/" 100 (Some []).
Definition task_2_times_2 : Task := mkTask "2" "2" 2 2 "*" 100 (Some [R]).

Definition scheduler_after_turn : Orchestrator :=
  fst (Worker_turn_scheduler scheduler_division_by_zero 20).

Definition scheduler_after_two_turns : Orchestrator :=
  fst (Worker_turn_scheduler scheduler_after_turn 30).

Definition scheduler_after_three_turns : Orchestrator :=
  fst (Worker_turn_scheduler scheduler_after_two_turns 40).

(* ================================================================== *)
(** * 9b. The rest of the storage package, the orchestrator and the agent *)
(* ================================================================== *)

(** ** storage: users and the listing of expressions *)

(** [isDuplicate]: the error of the driver is the violation of the UNIQUE
    constraint on [users.login] ([None] stands for a nil error). *)
Definition isDuplicate (err : option string) : bool :=
  match err with
  | Some msg => String.eqb msg "UNIQUE constraint failed: users.login"
  | None => false
  end.

(** The id that [INSERT INTO users] hands out.  No statement of the package
    deletes a user, so the AUTOINCREMENT sequence is the largest id of the
    table (0 for the empty table). *)
Definition next_user_id (db : DB) : Z :=
  fold_right Z.max 0 (map ur_id (users db)) + 1.

(** The statement [INSERT INTO users (login, password) VALUES (?, ?)
    RETURNING id]: the new id and table, or the error of the driver. *)
Definition insert_user (db : DB) (login password : string)
  : (Z * DB) + string :=
  if existsb (fun u => String.eqb (ur_login u) login) (users db)
  then inr "UNIQUE constraint failed: users.login"%string
  else
    let id := next_user_id db in
    inl (id, mkDB (users db ++ [mkUserRow id login password])
                  (expressions db) (tasks db) (expressions_seq db)).

Definition CreateUser (db : DB) (login password : string) : result (Z * DB) :=
  match insert_user db login password with
  | inl r => Ok r
  | inr msg =>
      if isDuplicate (Some msg) then Err ErrAlreadyExists
      else Err (ErrOther ("create user: " +:+ msg))
  end.

(** [GetUserByLogin]: [SELECT id, login, password FROM users WHERE login = ?],
    the first row. *)
Definition GetUserByLogin (db : DB) (login : string) : result UserRow :=
  match List.find (fun u => String.eqb (ur_login u) login) (users db) with
  | Some u => Ok u
  | None => Err ErrNotFound
  end.

(** [ORDER BY created_at DESC]: insertion into a list that is in the order
    already.  Rows with the same [created_at] keep the order of the table
    (SQL leaves their order open). *)
Fixpoint insert_by_created_at (r : ExprRow) (l : list ExprRow) : list ExprRow :=
  match l with
  | [] => [r]
  | x :: l' =>
      if er_created_at x <=? er_created_at r then r :: l
      else x :: insert_by_created_at r l'
  end.

Definition order_by_created_at_desc (l : list ExprRow) : list ExprRow :=
  fold_right insert_by_created_at [] l.

(** [rows.Scan] into [&orchestrator.Expression{UserID: userID}]: the id is
    rendered into the Go string, the result is set when the column is not
    NULL, and there is no tree. *)
Definition scan_expression (userID : Z) (r : ExprRow) : Expression :=
  mkExpression (Sprintf_d (er_id r)) userID (er_expression r) (er_status r)
               (er_result r) (er_created_at r) nil_node.

(** [GetExpressions]: the rows of the user, newest first. *)
Definition GetExpressions (db : DB) (userID : Z) : list Expression :=
  map (scan_expression userID)
      (order_by_created_at_desc
         (List.filter (fun r => er_user_id r =? userID) (expressions db))).

(** ** orchestrator.go: the listing, registration and login handlers *)

(** [expressionsHandler]: the state, the status code and the list that is
    encoded under ["expressions"]. *)
Definition expressionsHandler (o : Orchestrator) (r : Request)
  : Orchestrator * Z * list Expression :=
  let userID := GetUserIDFromContext r in
  (o, StatusOK, GetExpressions (Storage o) userID).

(** The body of a registration or login request after [Decode]. *)
Record Credentials : Type := mkCredentials {
  cred_Login : string;
  cred_Password : string
}.

Record AuthRequest : Type := mkAuthRequest {
  auth_Method : string;
  auth_Body : option Credentials     (* [None]: [Decode] failed *)
}.

Inductive AuthPayload : Type :=
| AuthError (msg : string)                        (* {"error": msg} *)
| Registered (id : Z) (login : string)            (* {"id":, "login":} *)
| LoggedIn (token : string) (id : Z) (login : string).
                                     (* {"token":, "user": {"id":, "login":}} *)

Definition StatusBadRequest : Z := 400.
Definition StatusConflict : Z := 409.

Section AuthHandlers.

(** The functions of the auth package, which is not part of the sources at
    hand ([None] stands for an error). *)
Variable HashPassword : string -> option string.
Variable CheckPasswordHash : string -> string -> bool.
Variable GenerateJWT : Z -> option string.

Definition registerHandler (o : Orchestrator) (r : AuthRequest)
  : Orchestrator * Z * AuthPayload :=
  if negb (String.eqb (auth_Method r) "POST") then
    (o, StatusMethodNotAllowed, AuthError "Method not allowed")
  else
    match auth_Body r with
    | None => (o, StatusBadRequest, AuthError "Invalid request body")
    | Some req =>
        if String.eqb (cred_Login req) "" || String.eqb (cred_Password req) ""
        then (o, StatusBadRequest, AuthError "Login and password are required")
        else
          match HashPassword (cred_Password req) with
          | None =>
              (o, StatusInternalServerError, AuthError "Internal server error")
          | Some hashedPassword =>
              match CreateUser (Storage o) (cred_Login req) hashedPassword with
              | Err ErrAlreadyExists =>
                  (o, StatusConflict, AuthError "User already exists")
              | Err _ =>
                  (o, StatusInternalServerError,
                   AuthError "Internal server error")
              | Ok (userID, db') =>
                  (set_Storage o db', StatusCreated,
                   Registered userID (cred_Login req))
              end
          end
    end.

Definition loginHandler (o : Orchestrator) (r : AuthRequest)
  : Orchestrator * Z * AuthPayload :=
  if negb (String.eqb (auth_Method r) "POST") then
    (o, StatusMethodNotAllowed, AuthError "Method not allowed")
  else
    match auth_Body r with
    | None => (o, StatusBadRequest, AuthError "Invalid request body")
    | Some req =>
        match GetUserByLogin (Storage o) (cred_Login req) with
        | Err ErrNotFound =>
            (o, StatusUnauthorized, AuthError "Invalid credentials")
        | Err _ =>
            (o, StatusInternalServerError, AuthError "Internal server error")
        | Ok user =>
            if negb (CheckPasswordHash (cred_Password req) (ur_password user))
            then (o, StatusUnauthorized, AuthError "Invalid credentials")
            else
              match GenerateJWT (ur_id user) with
              | None =>
                  (o, StatusInternalServerError,
                   AuthError "Internal server error")
              | Some token =>
                  (o, StatusOK, LoggedIn token (ur_id user) (ur_login user))
              end
        end
    end.

End AuthHandlers.

(** ** agent: the settings of [NewAgent] and the workers of [Start] *)

(** The two settings that [NewAgent] reads before it dials: the number of
    workers and the address of the orchestrator. *)
Definition NewAgent_settings (env : gmap string string) : Z * string :=
  let '(cp, err) := Atoi (Getenv env "COMPUTING_POWER") in
  let cp := if err || (cp <? 1) then 1 else cp in
  let orchestratorURL := Getenv env "ORCHESTRATOR_URL" in
  let orchestratorURL :=
    if String.eqb orchestratorURL "" then "localhost:50051"%string
    else orchestratorURL in
  (cp, orchestratorURL).

(** The ids of the workers that the loop of [Start] launches
    ([for i := 0; i < a.ComputingPower; i++]). *)
Definition Start_workers (ComputingPower : Z) : list Z :=
  map Z.of_nat (seq 0 (Z.to_nat ComputingPower)).

(** ** Further definitions used by the statements *)

(** A tree without its flags: what [Tasks] must leave as it is. *)
Fixpoint erase_flags (node : ASTNode) : ASTNode :=
  match node with
  | nil_node => nil_node
  | Node isLeaf v op l r _ =>
      Node isLeaf v op (erase_flags l) (erase_flags r) false
  end.

(** The task store after the tasks of a list were stored in order. *)
Definition store_all (m : gmap string Task) (ts : list Task) : gmap string Task :=
  fold_left (fun m t => <[task_ID t := t]> m) ts m.

(** The counter after [n] increments. *)
Definition advance (counter : Z) (n : nat) : Z :=
  Nat.iter n (fun c => wrap64 (c + 1)) counter.

(** The keys of the table of expressions are in order: no id twice, and no
    id beyond the AUTOINCREMENT sequence. *)
Definition db_keys_ok (db : DB) : Prop :=
  List.NoDup (map er_id (expressions db)) /\
  Forall (fun e => er_id e <= expressions_seq db) (expressions db).

(** Every task row that the text [id] selects is completed. *)
Definition completed_id (db : DB) (id : string) : Prop :=
  Forall (fun r => sql_id_eq (tr_id r) id = true -> tr_completed r = true)
         (tasks db).

(** An expression with the status [completed] has no task left that is not
    completed. *)
Definition completed_have_no_pending (db : DB) : Prop :=
  Forall (fun e =>
            er_status e = "completed"%string ->
            Forall (fun t => tr_expression_id t = er_id e ->
                             tr_completed t = true) (tasks db))
         (expressions db).

Definition fetch_request : Request :=
  mkRequest "GET" "/internal/task" "" None None.

(** What the handlers of [serve] do to the database: the three statements
    of theirs that change it. *)
Inductive db_step : DB -> DB -> Prop :=
| db_complete (db db' : DB) (id : string) (res : float) :
    CompleteTask db id res = Ok db' -> db_step db db'
| db_create (db db' : DB) (userID : Z) (text : string) (now : Z)
    (expr : Expression) :
    CreateExpression db userID text now = Ok (expr, db') -> db_step db db'
| db_mark_error (db : DB) (id : string) :
    db_step db (UpdateExpression db
                  (mkExpression id 0 "" "error" None 0 nil_node)).

(** The statuses that the code writes. *)
Definition valid_status (s : string) : Prop :=
  s = "pending"%string \/ s = "error"%string \/ s = "completed"%string.

(** The columns of a task row that are set when the row is inserted. *)
Definition task_key (r : TaskRow) : Z * Z * float * float * string * Z :=
  (tr_id r, tr_expression_id r, tr_arg1 r, tr_arg2 r, tr_operation r,
   tr_operation_time r).

(** The columns of an expression row that are set when the row is
    inserted. *)
Definition expression_key (e : ExprRow) : Z * Z * string * Z :=
  (er_id e, er_user_id e, er_expression e, er_created_at e).

(** A listing is newest first: no entry is older than one after it. *)
Fixpoint newest_first (l : list Expression) : Prop :=
  match l with
  | [] => True
  | e :: l' =>
      Forall (fun e' => expr_CreatedAt e' <= expr_CreatedAt e) l' /\
      newest_first l'
  end.

Definition list_request (userID : Z) : Request :=
  mkRequest "GET" "/api/v1/expressions" "" (Some userID) None.

(** Stand-ins for the functions of the auth package in the examples. *)
Definition hash_example (password : string) : option string :=
  Some ("hash:" +:+ password)%string.
Definition check_example (password hash : string) : bool :=
  String.eqb hash ("hash:" +:+ password).
Definition token_example (userID : Z) : option string :=
  Some (Sprintf_d userID).

Definition auth_request (login password : string) : AuthRequest :=
  mkAuthRequest "POST" (Some (mkCredentials login password)).

(** The request with another [Authorization] header. *)
Definition with_Authorization (r : Request) (authorization : string) : Request :=
  mkRequest (Method r) (URLPath r) authorization (ctx_userID r) (Body r).

(** The path is one of the two that [authMiddleware] lets through. *)
Definition is_public_path (path : string) : bool :=
  String.eqb path "/api/v1/login" || String.eqb path "/api/v1/register".

(* ================================================================== *)
(** * 10. Properties: Go library functions                              *)
(* ================================================================== *)

Lemma Sprintf_d_inj (a b : Z) : Sprintf_d a = Sprintf_d b -> a = b.
Proof. unfold Sprintf_d. apply pretty_Z_inj. Qed.

Lemma pretty_N_go_length (x : N) (s : string) :
  (String.length s <= String.length (pretty_N_go x s))%nat.
Proof.
  revert s. induction (N.lt_wf_0 x) as [x _ IH]; intros s.
  destruct (decide (x = 0%N)) as [->|Hx].
  - by rewrite pretty_N_go_0.
  - rewrite pretty_N_go_step by lia.
    etrans; [|apply IH; apply N.div_lt; lia]. cbn. lia.
Qed.

(** The decimal rendering of an integer is never the empty string. *)
Lemma Sprintf_d_nonempty (a : Z) : String.eqb (Sprintf_d a) "" = false.
Proof.
  apply String.eqb_neq. unfold Sprintf_d.
  assert (Hpos : forall p : positive, pretty (N.pos p) <> ""%string).
  { intros p H. unfold pretty, pretty_N in H.
    rewrite decide_False in H by done.
    pose proof (pretty_N_go_length (N.pos p `div` 10)
                  (String (pretty_N_char (N.pos p `mod` 10)) "")) as Hlen.
    rewrite <- pretty_N_go_step in Hlen by lia. rewrite H in Hlen.
    cbn in Hlen. lia. }
  destruct a as [|p|p]; [done|apply Hpos|done].
Qed.

(** ** The digits of a decimal rendering *)

Lemma pretty_N_char_digit (d : N) :
  (d < 10)%N ->
  is_digit (pretty_N_char d) = true /\ digit_value (pretty_N_char d) = Z.of_N d.
Proof.
  intros Hd.
  assert (Hcases : (d = 0 \/ d = 1 \/ d = 2 \/ d = 3 \/ d = 4 \/ d = 5 \/ d = 6
                    \/ d = 7 \/ d = 8 \/ d = 9)%N) by lia.
  repeat (destruct Hcases as [Hcases|Hcases]; [by subst|]). by subst.
Qed.

Lemma digits_value_pretty_N_go (x : N) (s : string) :
  digits_value 0 (pretty_N_go x s) = digits_value (Z.of_N x) s.
Proof.
  revert s. induction (N.lt_wf_0 x) as [x _ IH]; intros s.
  destruct (decide (x = 0%N)) as [->|Hx]; [by rewrite pretty_N_go_0|].
  rewrite pretty_N_go_step by lia. rewrite IH by (apply N.div_lt; lia).
  destruct (pretty_N_char_digit (x `mod` 10)) as [Hd Hv];
    [by apply N.mod_lt|].
  cbn [digits_value]. rewrite Hd, Hv. f_equal.
  pose proof (N.div_mod x 10 ltac:(done)) as Hdm.
  rewrite Hdm at 3. lia.
Qed.

Lemma pretty_N_go_head (x : N) (s : string) :
  (0 < x)%N ->
  exists c rest, pretty_N_go x s = String c rest /\ is_digit c = true.
Proof.
  revert s. induction (N.lt_wf_0 x) as [x _ IH]; intros s Hx.
  rewrite pretty_N_go_step by done.
  destruct (decide (x `div` 10 = 0)%N) as [->|Hq].
  - rewrite pretty_N_go_0. eexists _, _. split; [done|].
    by apply pretty_N_char_digit, N.mod_lt.
  - apply IH; [apply N.div_lt; lia|].
    by apply N.neq_0_lt_0.
Qed.

(** The rendering of a positive number: digits only, a digit first, and the
    value of the digits is the number. *)
Lemma pretty_pos_digits (p : positive) :
  exists c rest,
    pretty (N.pos p) = String c rest /\ is_digit c = true /\
    digits_value 0 (String c rest) = Some (Z.pos p).
Proof.
  unfold pretty, pretty_N. rewrite decide_False by done.
  destruct (pretty_N_go_head (N.pos p) "" ltac:(done)) as (c & rest & Heq & Hc).
  pose proof (digits_value_pretty_N_go (N.pos p) "") as Hd.
  rewrite Heq in Hd |- *. by exists c, rest.
Qed.

(** A digit is no white space and no sign. *)
Lemma is_digit_plain (c : ascii) (rest : string) :
  is_digit c = true ->
  sqlite3Isspace c = false /\
  read_sign (String c rest) = (false, String c rest).
Proof.
  intros H. destruct c as [[] [] [] [] [] [] [] []];
    vm_compute in H; try discriminate H; split; reflexivity.
Qed.

Lemma leading_digits_all (acc v : Z) (s : string) :
  digits_value acc s = Some v -> leading_digits acc s = v.
Proof.
  revert acc. induction s as [|c s IH]; intros acc; cbn.
  - by intros [= ->].
  - destruct (is_digit c); [apply IH|done].
Qed.

Lemma significand_all (fraction : bool) (acc v sig d : Z) (n : nat) (s : string) :
  digits_value acc s = Some v ->
  exists sig' d' n',
    significand fraction sig d n s = (sig', d', n', ""%string) /\ (n <= n')%nat.
Proof.
  revert acc sig d n. induction s as [|c s IH]; intros acc sig d n; cbn.
  - intros _. by eexists _, _, _.
  - destruct (is_digit c); [|done]. intros Hv.
    destruct (sig <? significand_limit).
    + destruct (IH _ (sig * 10 + digit_value c)
                  (if fraction then d - 1 else d) (S n) Hv)
        as (sig' & d' & n' & Heq & Hn).
      exists sig', d', n'. split; [done|lia].
    + apply (IH _ _ _ _ Hv).
Qed.

Lemma AtoF_number_digits (neg : bool) (c : ascii) (rest : string) (v : Z) :
  is_digit c = true ->
  digits_value 0 (String c rest) = Some v ->
  AtoF_number neg (String c rest) = Some (SQLInteger (if neg then - v else v)).
Proof.
  intros Hc Hv. unfold AtoF_number.
  rewrite (leading_digits_all _ _ _ Hv).
  cbn [significand digits_value] in Hv |- *. rewrite Hc in Hv |- *.
  change (0 <? significand_limit) with true. cbv iota.
  destruct (significand_all false _ _ (0 * 10 + digit_value c) 0 1 rest Hv)
    as (sig & d & n & Heq & Hn).
  rewrite Heq. cbn.
  by destruct n as [|n]; [lia|].
Qed.

(** SQLite reads the rendering of an integer as that integer. *)
Lemma sqlite3AtoF_Sprintf_d (b : Z) :
  sqlite3AtoF (Sprintf_d b) = Some (SQLInteger b).
Proof.
  unfold Sprintf_d. destruct b as [|p|p]; [done| |].
  - change (pretty (Z.pos p)) with (pretty (N.pos p)).
    destruct (pretty_pos_digits p) as (c & rest & -> & Hc & Hv).
    unfold sqlite3AtoF. cbn [skip_spaces].
    destruct (is_digit_plain c rest Hc) as [-> ->].
    by rewrite (AtoF_number_digits false c rest _ Hc Hv).
  - change (pretty (Z.neg p)) with (String "-" (pretty (N.pos p))).
    destruct (pretty_pos_digits p) as (c & rest & -> & Hc & Hv).
    unfold sqlite3AtoF. cbn [skip_spaces].
    change (sqlite3Isspace "-") with false. cbn [read_sign].
    by rewrite (AtoF_number_digits true c rest _ Hc Hv).
Qed.

Lemma sql_id_eq_Sprintf (a b : Z) : sql_id_eq a (Sprintf_d b) = bool_decide (a = b).
Proof.
  unfold sql_id_eq. rewrite sqlite3AtoF_Sprintf_d.
  case_bool_decide; [by apply Z.eqb_eq|by apply Z.eqb_neq].
Qed.

Lemma wrap64_in_range (z : Z) : MinInt64 <= z <= MaxInt64 -> wrap64 z = z.
Proof.
  unfold wrap64, MinInt64, MaxInt64. intros H.
  rewrite Z.mod_small; lia.
Qed.

(** When [Atoi] reports an error the value is 0 (syntax) or one of the two
    bounds of [int64] (range). *)
Lemma Atoi_error (s : string) (v : Z) :
  Atoi s = (v, true) -> v = 0 \/ v = MinInt64 \/ v = MaxInt64.
Proof.
  unfold Atoi.
  destruct (match s with
            | String "-"%char rest => (true, rest)
            | String "+"%char rest => (false, rest)
            | _ => (false, s)
            end) as [neg body].
  destruct (ParseUint body) as [un|[]].
  - destruct (negb neg && _); [intros [= <-]; auto|].
    destruct (neg && _); [intros [= <-]; auto|]. intros [=].
  - intros [= <-]. auto.
  - intros [= <-]. destruct neg; auto.
Qed.

(* ================================================================== *)
(** * 11. Properties: configuration                                    *)
(* ================================================================== *)

Lemma time_setting_eq (env : gmap string string) (key : string) :
  time_setting env key =
  if fst (Atoi (Getenv env key)) =? 0 then 100
  else fst (Atoi (Getenv env key)).
Proof. reflexivity. Qed.

Lemma time_setting_nonzero (env : gmap string string) (key : string) :
  time_setting env key <> 0.
Proof.
  unfold time_setting.
  destruct (Z.eqb_spec (fst (Atoi (Getenv env key))) 0); lia.
Qed.

Lemma time_setting_unset (env : gmap string string) (key : string) :
  time_setting (delete key env) key = 100.
Proof.
  unfold time_setting, Getenv. rewrite lookup_delete_eq. reflexivity.
Qed.

(** C7, as the claim states it, fails: it is not the case that every
    configured operator cost is positive.  With [TIME_ADDITION_MS=-5] the
    loader keeps the negative value. *)
Lemma Configuration_cost_not_always_positive :
  ~ (forall env : gmap string string,
       0 < TimeAddition (Configuration env) /\
       0 < TimeSubtraction (Configuration env) /\
       0 < TimeMultiplications (Configuration env) /\
       0 < TimeDivisions (Configuration env)).
Proof.
  intros H.
  destruct (H (<["TIME_ADDITION_MS"%string := "-5"%string]> ∅)) as [Hneg _].
  vm_compute in Hneg. discriminate Hneg.
Qed.

(** C7 (amended).  Each of the four operator costs is the default 100 when
    its setting is unset or when [strconv.Atoi] yields 0 for it (a text that
    is not an integer, or zero); any other value that [Atoi] yields is kept
    as it is, a negative one included.  Hence every configured cost is
    non-zero. *)
Theorem Configuration_costs (env : gmap string string) :
  let c := Configuration env in
  let v := fun key => fst (Atoi (Getenv env key)) in
  (TimeAddition c =
     if v "TIME_ADDITION_MS"%string =? 0 then 100 else v "TIME_ADDITION_MS"%string) /\
  (TimeSubtraction c =
     if v "TIME_SUBTRACTION_MS"%string =? 0 then 100 else v "TIME_SUBTRACTION_MS"%string) /\
  (TimeMultiplications c =
     if v "TIME_MULTIPLICATIONS_MS"%string =? 0 then 100
     else v "TIME_MULTIPLICATIONS_MS"%string) /\
  (TimeDivisions c =
     if v "TIME_DIVISIONS_MS"%string =? 0 then 100 else v "TIME_DIVISIONS_MS"%string) /\
  TimeAddition (Configuration (delete "TIME_ADDITION_MS"%string env)) = 100 /\
  TimeSubtraction (Configuration (delete "TIME_SUBTRACTION_MS"%string env)) = 100 /\
  TimeMultiplications (Configuration (delete "TIME_MULTIPLICATIONS_MS"%string env)) = 100 /\
  TimeDivisions (Configuration (delete "TIME_DIVISIONS_MS"%string env)) = 100 /\
  TimeAddition c <> 0 /\ TimeSubtraction c <> 0 /\
  TimeMultiplications c <> 0 /\ TimeDivisions c <> 0.
Proof.
  cbv zeta. unfold Configuration. cbn [TimeAddition TimeSubtraction
    TimeMultiplications TimeDivisions].
  repeat split;
    auto using time_setting_eq, time_setting_unset, time_setting_nonzero.
Qed.

(** Texts that [Atoi] turns into 0, and texts it keeps. *)
Example time_setting_examples :
  let env (s : string) : gmap string string := {["TIME_DIVISIONS_MS"%string := s]} in
  map (fun s => TimeDivisions (Configuration (env s)))
      ["400"; "0"; ""; "fast"; "-0"; "-250"; "+7"; "99999999999999999999"]%string
  = [400; 100; 100; 100; 100; -250; 7; MaxInt64].
Proof. vm_compute. reflexivity. Qed.

(* ================================================================== *)
(** * 12. Properties: the storage operations                           *)
(* ================================================================== *)

Lemma set_tasks_same (db : DB) : set_tasks db (tasks db) = db.
Proof. by destruct db. Qed.

Lemma set_expressions_same (db : DB) : set_expressions db (expressions db) = db.
Proof. by destruct db. Qed.

Lemma map_id_Forall {A : Type} (f : A -> A) (l : list A) :
  Forall (fun x => f x = x) l -> map f l = l.
Proof. induction 1 as [|x l Hx _ IH]; cbn; [done|]. by rewrite Hx, IH. Qed.

(** ** [CompleteTask] *)

(** No row has the id: the statement returns no row and the transaction is
    rolled back. *)
Lemma CompleteTask_unknown (db : DB) (taskID : string) (res : float) :
  existsb (fun t => sql_id_eq (tr_id t) taskID) (tasks db) = false ->
  CompleteTask db taskID res = Err sql_ErrNoRows.
Proof.
  intros H. unfold CompleteTask.
  replace (List.filter (fun r => sql_id_eq (tr_id r) taskID) (tasks db))
    with (@nil TaskRow); [done|].
  symmetry. induction (tasks db) as [|t ts IH]; [done|].
  cbn in H |- *. apply orb_false_iff in H as [Ht Hts].
  rewrite Ht. by apply IH.
Qed.

(** A row has the id: the submit is accepted, whatever the row says about
    an earlier completion. *)
Lemma CompleteTask_known (db : DB) (taskID : string) (res : float) :
  existsb (fun t => sql_id_eq (tr_id t) taskID) (tasks db) = true ->
  exists db',
    CompleteTask db taskID res = Ok db' /\
    tasks db' = map (fun r => if sql_id_eq (tr_id r) taskID
                              then set_completed r res else r) (tasks db).
Proof.
  intros H. unfold CompleteTask.
  destruct (List.filter (fun r => sql_id_eq (tr_id r) taskID) (tasks db))
    as [|row rows] eqn:Hf.
  - exfalso. revert H Hf. induction (tasks db) as [|t ts IH]; cbn; [done|].
    destruct (sql_id_eq (tr_id t) taskID); cbn; [done|]. apply IH.
  - destruct (Nat.eqb _ 0); eexists; split; reflexivity.
Qed.

(** [CompleteTask] never writes the column [result] of an expression. *)
Lemma CompleteTask_keeps_expression_results (db db' : DB) (taskID : string)
    (res : float) :
  CompleteTask db taskID res = Ok db' ->
  map er_result (expressions db') = map er_result (expressions db).
Proof.
  unfold CompleteTask.
  destruct (List.filter _ (tasks db)) as [|row rows]; [done|].
  destruct (Nat.eqb _ 0); intros [= <-]; cbn; [|done].
  rewrite map_map. apply map_ext. intros e. by destruct (er_id e =? _).
Qed.

(** ** [GetPendingTask] *)


Lemma getTaskHandler_fails (o : Orchestrator) (now : Z) (r : Request) :
  getTaskHandler o now r =
    Responded o (mkResponse StatusInternalServerError
                            (JSONError "Internal error")).
Proof. reflexivity. Qed.



(** C2.  Code at the failing input: the submit of the result of the only
    task of expression 1 sets the status of the expression to [completed]
    and leaves its result unset (NULL). *)
Theorem CompleteTask_completed_without_result :
  CompleteTask db_one_task "1" 4 = Ok db_task_done /\
  postTaskHandler (NewOrchestrator ∅ db_one_task) 20 (result_request "1" 4) =
    Responded (NewOrchestrator ∅ db_task_done)
              (mkResponse StatusOK (JSONStatus "result accepted")) /\
  map (fun e => (er_status e, er_result e)) (expressions db_task_done) =
    [("completed"%string, None)].
Proof. repeat split; vm_compute; reflexivity. Qed.

(** C4, as the claim states it, fails: a second submit for the task that is
    already completed is accepted and overwrites the stored result. *)
Lemma CompleteTask_accepts_completed_task :
  map tr_completed (tasks db_task_done) = [true] /\
  exists db',
    CompleteTask db_task_done "1" 5 = Ok db' /\
    postTaskHandler (NewOrchestrator ∅ db_task_done) 40 (result_request "1" 5) =
      Responded (NewOrchestrator ∅ db')
                (mkResponse StatusOK (JSONStatus "result accepted")) /\
    map (fun r => match tr_result r with
                  | Some x => PrimFloat.eqb x 4
                  | None => false
                  end) (tasks db_task_done) = [true] /\
    map (fun r => match tr_result r with
                  | Some x => PrimFloat.eqb x 4
                  | None => false
                  end) (tasks db') = [false].
Proof.
  split; [reflexivity|]. eexists. repeat split; vm_compute; reflexivity.
Qed.

(** C4 (amended).  A submit for a task id that selects no row of the table
    is refused: the answer is an error and not the acknowledgement, and all
    state is left unchanged.  A submit for an id that selects a row is
    accepted, whether or not that task is completed already: every selected
    row is marked completed with the submitted result (NULL for a NaN), and
    the other rows are left as they are. *)
Theorem postTaskHandler_submit (o : Orchestrator) (now : Z) (r : Request)
    (req : DecodedBody) :
  Body r = Some req ->
  if existsb (fun t => sql_id_eq (tr_id t) (json_id req)) (tasks (Storage o))
  then
    exists db',
      CompleteTask (Storage o) (json_id req) (json_result req) = Ok db' /\
      postTaskHandler o now r =
        Responded (set_Storage o db')
                  (mkResponse StatusOK (JSONStatus "result accepted")) /\
      tasks db' =
        map (fun t => if sql_id_eq (tr_id t) (json_id req)
                      then set_completed t (json_result req) else t)
            (tasks (Storage o))
  else
    (exists e, CompleteTask (Storage o) (json_id req) (json_result req) = Err e) /\
    exists code msg,
      postTaskHandler o now r = Responded o (mkResponse code (JSONError msg)) /\
      code <> StatusOK.
Proof.
  intros Hbody. unfold postTaskHandler. rewrite Hbody.
  destruct (existsb _ _) eqn:Hex.
  - destruct (CompleteTask_known _ _ (json_result req) Hex) as (db' & Hok & Ht).
    exists db'. by rewrite Hok.
  - rewrite (CompleteTask_unknown _ _ _ Hex). split; [by eexists|].
    by eexists _, _.
Qed.

Lemma postTaskHandler_submit_witness :
  ((exists e, CompleteTask db_task_done "7" 5 = Err e) /\
   exists code msg,
     postTaskHandler (NewOrchestrator ∅ db_task_done) 40 (result_request "7" 5) =
       Responded (NewOrchestrator ∅ db_task_done)
                 (mkResponse code (JSONError msg)) /\
     code <> StatusOK) /\
  exists db',
    CompleteTask db_one_task " 01" 4 = Ok db' /\
    postTaskHandler (NewOrchestrator ∅ db_one_task) 40 (result_request " 01" 4) =
      Responded (set_Storage (NewOrchestrator ∅ db_one_task) db')
                (mkResponse StatusOK (JSONStatus "result accepted")) /\
    tasks db' =
      map (fun t => if sql_id_eq (tr_id t) " 01" then set_completed t 4 else t)
          (tasks db_one_task).
Proof.
  split.
  - exact (postTaskHandler_submit (NewOrchestrator ∅ db_task_done) 40
             (result_request "7" 5) (mkBody "" "7" 5) eq_refl).
  - exact (postTaskHandler_submit (NewOrchestrator ∅ db_one_task) 40
             (result_request " 01" 4) (mkBody "" " 01" 4) eq_refl).
Defined.

(** The texts that select the task row 1, and texts that select no row. *)
Example sql_id_eq_examples :
  map (sql_id_eq 1) ["1"; "01"; " 1"; "+1"; "1.0"]%string
    = [true; true; true; true; true] /\
  map (sql_id_eq 1) [""; "one"; "1a"; "0x1"; "-1"; "1.5"; "2"; "1 1"]%string
    = [false; false; false; false; false; false; false; false].
Proof. split; vm_compute; reflexivity. Qed.

(** A NaN result is stored as NULL: the row is completed without result. *)
Example CompleteTask_NaN :
  (tasks <$> CompleteTask_db (CompleteTask db_one_task "1" (0 / 0)%float)) =
    Some [mkTaskRow 1 1 2 2 "+" 100 true None None].
Proof. vm_compute. reflexivity. Qed.

(* ================================================================== *)
(** * 13. Properties: creating and querying an expression              *)
(* ================================================================== *)

(** The update that [calculateHandler] issues after a parse error carries
    the user id 0 (the field [UserID] of the literal is not set): it selects
    no row of a table whose rows all belong to other users. *)
Lemma UpdateExpression_user_0 (db : DB) (id : string) :
  Forall (fun e => sql_id_eq (er_id e) id = true -> er_user_id e <> 0)
         (expressions db) ->
  UpdateExpression db (mkExpression id 0 "" "error" None 0 nil_node) = db.
Proof.
  intros H. unfold UpdateExpression. cbn.
  rewrite map_id_Forall; [apply set_expressions_same|].
  eapply Forall_impl; [exact H|]. cbn. intros e He.
  destruct (sql_id_eq (er_id e) id); [|done].
  destruct (Z.eqb_spec (er_user_id e) 0) as [H0|]; [|done].
  by destruct He.
Qed.

(** A parse error for a registered user other than user 0: the answer is
    422 with the message of the parser, and the database is left as
    [CreateExpression] made it, that is with the new row still [pending]. *)
Lemma calculateHandler_parse_error (ParseAST : string -> ASTNode + string)
    (o : Orchestrator) (now : Z) (r : Request) (req : DecodedBody)
    (expr : Expression) (db1 : DB) (err : string) :
  Body r = Some req ->
  GetUserIDFromContext r <> 0 ->
  Forall (fun e => er_id e <= expressions_seq (Storage o))
         (expressions (Storage o)) ->
  CreateExpression (Storage o) (GetUserIDFromContext r) (json_expression req) now
    = Ok (expr, db1) ->
  ParseAST (json_expression req) = inr err ->
  calculateHandler ParseAST o now r =
    Responded (set_Storage o db1)
              (mkResponse StatusUnprocessableEntity (JSONError err)) /\
  last (expressions db1) =
    Some (mkExprRow (expressions_seq (Storage o) + 1) (GetUserIDFromContext r)
                    (json_expression req) "pending" None now).
Proof.
  intros Hbody Huser Hseq Hcreate Hparse.
  unfold calculateHandler. rewrite Hbody, Hcreate, Hparse.
  unfold CreateExpression in Hcreate.
  destruct (existsb _ _); [|done].
  injection Hcreate as <- <-. cbn [expr_ID].
  rewrite UpdateExpression_user_0.
  - split; [done|]. cbn. by rewrite last_snoc.
  - cbn. apply Forall_app. split.
    + eapply Forall_impl; [exact Hseq|]. cbn. intros e He Hid.
      rewrite sql_id_eq_Sprintf in Hid.
      apply bool_decide_eq_true_1 in Hid. lia.
    + by constructor.
Qed.

(** C5.  Code at the failing input: user 1 submits the text [2+a].  The
    parser reports [expected number at position 2], the handler answers 422,
    no task is generated, and the row of the expression is persisted with
    the status [pending], not [error]. *)
Theorem calculateHandler_parse_error_left_pending :
  exists o' : Orchestrator,
    calculateHandler ParseAST_spec (NewOrchestrator ∅ db_one_user) 10
                     (calc_request 1 "2+a") =
      Responded o' (mkResponse StatusUnprocessableEntity
                               (JSONError "expected number at position 2")) /\
    expressions (Storage o') = [mkExprRow 1 1 "2+a" "pending" None 10] /\
    tasks (Storage o') = [] /\
    taskQueue o' = [] /\
    taskCounter o' = 0.
Proof. eexists. repeat split; vm_compute; reflexivity. Qed.

(** C10.  The query of one expression does not look at the user: two
    requests with the same method and path, each carrying a valid token of
    some user, get the same answer from [expressionIDHandler] behind
    [authMiddleware], whoever the two users are. *)
Theorem expressionIDHandler_any_user (ParseJWT : string -> option Z)
    (o : Orchestrator) (now : Z) (r1 r2 : Request) (u1 u2 : Z) :
  Method r1 = Method r2 ->
  URLPath r1 = URLPath r2 ->
  Authorization r1 <> ""%string ->
  Authorization r2 <> ""%string ->
  ParseJWT (TrimPrefix (Authorization r1) "Bearer ") = Some u1 ->
  ParseJWT (TrimPrefix (Authorization r2) "Bearer ") = Some u2 ->
  TrimPrefix (Authorization r1) "Bearer " <> ""%string ->
  TrimPrefix (Authorization r2) "Bearer " <> ""%string ->
  authMiddleware ParseJWT expressionIDHandler o now r1 =
  authMiddleware ParseJWT expressionIDHandler o now r2 /\
  authMiddleware ParseJWT expressionIDHandler o now r1 =
  expressionIDHandler o now r1.
Proof.
  intros Hm Hp Ha1 Ha2 Hj1 Hj2 Ht1 Ht2.
  unfold authMiddleware. rewrite <- Hp, Hj1, Hj2.
  apply String.eqb_neq in Ha1, Ha2, Ht1, Ht2.
  rewrite Ha1, Ha2, Ht1, Ht2.
  unfold expressionIDHandler. cbn [Method URLPath with_userID].
  rewrite <- Hm, <- Hp.
  by destruct (_ || _).
Qed.

Lemma expressionIDHandler_any_user_witness :
  authMiddleware jwt_decimal expressionIDHandler o_with_expression 50
                 (query_request "Bearer 1" "7") =
  authMiddleware jwt_decimal expressionIDHandler o_with_expression 50
                 (query_request "Bearer 2" "7") /\
  authMiddleware jwt_decimal expressionIDHandler o_with_expression 50
                 (query_request "Bearer 1" "7") =
  expressionIDHandler o_with_expression 50 (query_request "Bearer 1" "7").
Proof.
  apply (expressionIDHandler_any_user jwt_decimal o_with_expression 50
           (query_request "Bearer 1" "7") (query_request "Bearer 2" "7") 1 2);
    vm_compute; congruence.
Defined.

(** The owner of expression 7 is user 1; user 2 reads it all the same. *)
Example expressionIDHandler_other_user :
  authMiddleware jwt_decimal expressionIDHandler o_with_expression 50
                 (query_request "Bearer 2" "7") =
  Responded o_with_expression
    (mkResponse StatusOK
       (JSONExpression (mkExpression "7" 1 "2+2" "pending" None 10
                          (Internal "+" (Leaf 2) (Leaf 2))))).
Proof. vm_compute. reflexivity. Qed.

(* ================================================================== *)
(** * 14. Properties: the decomposer                                   *)
(* ================================================================== *)

Lemma lookup_app_shift {A : Type} (l1 l2 : list A) (i : nat) :
  (l1 ++ l2) !! (length l1 + i)%nat = l2 !! i.
Proof. induction l1 as [|x l1 IH]; [done|]. exact IH. Qed.

Section Decomposer.

Variable exprID : string.

Lemma leaf_value_traverse (node : ASTNode) (path : NodeRef) (o : Orchestrator) :
  leaf_value (fst (traverse exprID path node o)) = leaf_value node.
Proof.
  destruct node as [|isLeaf v op l r sched]; [done|].
  destruct isLeaf; [done|]. cbn.
  destruct (traverse exprID (path ++ [L]) l o) as [l' o1].
  destruct (traverse exprID (path ++ [R]) r o1) as [r' o2].
  destruct l' as [|[] ? ? ? ? ?]; try done.
  destruct r' as [|[] ? ? ? ? ?]; try done.
  by destruct sched.
Qed.

Lemma leaf_value_Some (node : ASTNode) (a : float) :
  leaf_value node = Some a ->
  exists op l r sched, node = Node true a op l r sched.
Proof.
  destruct node as [|[] v op l r sched]; try done.
  intros [= ->]. by eauto.
Qed.

Lemma ready_postorder_Node (path : NodeRef) (v : float) (op : string)
    (l r : ASTNode) (sched : bool) :
  ready_postorder path (Node false v op l r sched) =
  ready_postorder (path ++ [L]) l ++ ready_postorder (path ++ [R]) r ++
  emit_at path op l r sched.
Proof.
  cbn. unfold emit_at. do 2 f_equal.
  destruct l as [|[] ? ? ? ? ?]; try done.
  destruct r as [|[] ? ? ? ? ?]; done.
Qed.

Lemma traverse_Node (path : NodeRef) (v : float) (op : string)
    (l r : ASTNode) (sched : bool) (o : Orchestrator) :
  let lo := traverse exprID (path ++ [L]) l o in
  let ro := traverse exprID (path ++ [R]) r (snd lo) in
  traverse exprID path (Node false v op l r sched) o =
  (Node false v op (fst lo) (fst ro)
        (match emit_at path op l r sched with [] => sched | _ => true end),
   schedule_all exprID (emit_at path op l r sched) (snd ro)).
Proof.
  cbn zeta. cbn [traverse].
  pose proof (leaf_value_traverse l (path ++ [L]) o) as Hl.
  destruct (traverse exprID (path ++ [L]) l o) as [l' o1].
  cbn [fst snd] in *.
  pose proof (leaf_value_traverse r (path ++ [R]) o1) as Hr.
  destruct (traverse exprID (path ++ [R]) r o1) as [r' o2].
  cbn [fst snd] in *. unfold emit_at. rewrite <- Hl, <- Hr.
  destruct l' as [|[] ? ? ? ? ?]; try reflexivity.
  destruct r' as [|[] ? ? ? ? ?]; try reflexivity.
  destruct sched; reflexivity.
Qed.

Lemma schedule_all_app (rs1 rs2 : list (NodeRef * string * float * float))
    (o : Orchestrator) :
  schedule_all exprID (rs1 ++ rs2) o =
  schedule_all exprID rs2 (schedule_all exprID rs1 o).
Proof. apply fold_left_app. Qed.

(** [traverse] schedules the ready nodes of the tree in post-order. *)
Lemma traverse_schedules_postorder (node : ASTNode) (path : NodeRef)
    (o : Orchestrator) :
  snd (traverse exprID path node o) =
  schedule_all exprID (ready_postorder path node) o.
Proof.
  revert path o.
  induction node as [|isLeaf v op l IHl r IHr sched]; intros path o; [done|].
  destruct isLeaf; [done|].
  rewrite traverse_Node, ready_postorder_Node. cbn [snd].
  by rewrite !schedule_all_app, IHr, IHl.
Qed.

Lemma schedule_all_state (rs : list (NodeRef * string * float * float))
    (o : Orchestrator) :
  taskQueue (schedule_all exprID rs o) =
    taskQueue o ++ numbered (OConfig o) exprID (taskCounter o) rs /\
  OConfig (schedule_all exprID rs o) = OConfig o /\
  Storage (schedule_all exprID rs o) = Storage o /\
  exprStore (schedule_all exprID rs o) = exprStore o.
Proof.
  revert o. induction rs as [|[[[p op] a1] a2] rs IH]; intros o.
  - cbn. by rewrite app_nil_r.
  - change (schedule_all exprID ((p, op, a1, a2) :: rs) o)
      with (schedule_all exprID rs (schedule exprID p op a1 a2 o)).
    destruct (IH (schedule exprID p op a1 a2 o)) as (Hq & Hc & Hs & He).
    rewrite Hq, Hc, Hs, He. cbn. by rewrite <- app_assoc.
Qed.

(** The tree after a visit has no ready node left. *)
Lemma traverse_settles (node : ASTNode) (path path' : NodeRef)
    (o : Orchestrator) :
  ready_postorder path' (fst (traverse exprID path node o)) = [].
Proof.
  revert path path' o.
  induction node as [|isLeaf v op l IHl r IHr sched]; intros path path' o;
    [done|].
  destruct isLeaf; [done|].
  rewrite traverse_Node. cbn [fst]. rewrite ready_postorder_Node, IHl, IHr.
  cbn. unfold emit_at. rewrite !leaf_value_traverse.
  destruct (leaf_value l), (leaf_value r); try done.
  by destruct sched.
Qed.

(** A visit of a tree without ready nodes changes nothing. *)
Lemma traverse_nothing_ready (node : ASTNode) (path : NodeRef)
    (o : Orchestrator) :
  ready_postorder path node = [] -> traverse exprID path node o = (node, o).
Proof.
  revert path o.
  induction node as [|isLeaf v op l IHl r IHr sched]; intros path o; [done|].
  destruct isLeaf; [done|].
  rewrite traverse_Node, ready_postorder_Node.
  intros H. apply app_eq_nil in H as [Hl H]. apply app_eq_nil in H as [Hr He].
  rewrite He, (IHl _ _ Hl). cbn [fst snd]. by rewrite (IHr _ _ Hr).
Qed.

(** Every entry of the post-order list is a ready node of the tree. *)
Lemma ready_postorder_sound (node : ASTNode) (path q : NodeRef) (op : string)
    (a1 a2 : float) :
  In (q, op, a1, a2) (ready_postorder path node) ->
  exists p, q = path ++ p /\ ready (node_at node p) = true.
Proof.
  revert path.
  induction node as [|isLeaf v op' l IHl r IHr sched]; intros path; [done|].
  destruct isLeaf; [done|].
  rewrite ready_postorder_Node, !in_app_iff. intros [H|[H|H]].
  - destruct (IHl _ H) as (p & -> & Hp). exists (L :: p).
    by rewrite <- app_assoc.
  - destruct (IHr _ H) as (p & -> & Hp). exists (R :: p).
    by rewrite <- app_assoc.
  - exists []. rewrite app_nil_r. unfold emit_at in H.
    destruct (leaf_value l) as [b1|] eqn:Hl; [|done].
    destruct (leaf_value r) as [b2|] eqn:Hr; [|done].
    destruct sched; [done|]. destruct H as [[= -> _ _ _]|[]].
    apply leaf_value_Some in Hl as (? & ? & ? & ? & ->).
    apply leaf_value_Some in Hr as (? & ? & ? & ? & ->). done.
Qed.

(** Every ready node of the tree has an entry in the post-order list. *)
Lemma ready_postorder_complete (p : NodeRef) (node : ASTNode) (path : NodeRef) :
  ready (node_at node p) = true ->
  exists i op a1 a2,
    ready_postorder path node !! i = Some (path ++ p, op, a1, a2).
Proof.
  revert node path. induction p as [|d p IH]; intros node path.
  - cbn [node_at]. destruct node as [|[] v op l r sched]; try done.
    rewrite ready_postorder_Node. cbn [ready].
    destruct l as [|[] b1 ? ? ? ?]; try done.
    destruct r as [|[] b2 ? ? ? ?]; try done.
    destruct sched; [done|]. intros _. exists 0%nat, op, b1, b2.
    by rewrite app_nil_r.
  - cbn [node_at]. destruct node as [|[] v op l r sched]; try done.
    rewrite ready_postorder_Node. intros H. destruct d.
    + destruct (IH l (path ++ [L]) H) as (i & op' & b1 & b2 & Hi).
      exists i, op', b1, b2. rewrite <- app_assoc in Hi. cbn in Hi.
      rewrite lookup_app_l; [done|]. by eapply lookup_lt_Some.
    + destruct (IH r (path ++ [R]) H) as (i & op' & b1 & b2 & Hi).
      exists (length (ready_postorder (path ++ [L]) l) + i)%nat, op', b1, b2.
      rewrite <- app_assoc in Hi. cbn in Hi.
      rewrite lookup_app_shift.
      rewrite lookup_app_l; [done|]. by eapply lookup_lt_Some.
Qed.

(** Of two ready nodes in the left and in the right subtree of a common
    ancestor, the left one comes first in the post-order list. *)
Lemma ready_postorder_left_first (c s1 s2 : NodeRef) (node : ASTNode)
    (path : NodeRef) :
  ready (node_at node (c ++ L :: s1)) = true ->
  ready (node_at node (c ++ R :: s2)) = true ->
  exists i j op1 a1 b1 op2 a2 b2,
    (i < j)%nat /\
    ready_postorder path node !! i = Some (path ++ c ++ L :: s1, op1, a1, b1) /\
    ready_postorder path node !! j = Some (path ++ c ++ R :: s2, op2, a2, b2).
Proof.
  revert node path. induction c as [|d c IH]; intros node path.
  - cbn [app node_at]. destruct node as [|[] v op l r sched]; try done.
    intros H1 H2. rewrite ready_postorder_Node.
    destruct (ready_postorder_complete s1 l (path ++ [L]) H1)
      as (i & op1 & a1 & b1 & Hi).
    destruct (ready_postorder_complete s2 r (path ++ [R]) H2)
      as (j & op2 & a2 & b2 & Hj).
    rewrite <- app_assoc in Hi, Hj. cbn in Hi, Hj.
    pose proof (lookup_lt_Some _ _ _ Hi) as Hlt.
    exists i, (length (ready_postorder (path ++ [L]) l) + j)%nat,
      op1, a1, b1, op2, a2, b2.
    split; [by apply Nat.lt_lt_add_r|]. split.
    + by rewrite lookup_app_l.
    + rewrite lookup_app_shift.
      rewrite lookup_app_l; [done|]. by eapply lookup_lt_Some.
  - cbn [app node_at]. destruct node as [|[] v op l r sched]; try done.
    intros H1 H2. rewrite ready_postorder_Node. destruct d.
    + destruct (IH l (path ++ [L]) H1 H2)
        as (i & j & op1 & a1 & b1 & op2 & a2 & b2 & Hij & Hi & Hj).
      rewrite <- app_assoc in Hi, Hj. cbn in Hi, Hj.
      exists i, j, op1, a1, b1, op2, a2, b2. split; [done|].
      split; (rewrite lookup_app_l; [done|]; by eapply lookup_lt_Some).
    + destruct (IH r (path ++ [R]) H1 H2)
        as (i & j & op1 & a1 & b1 & op2 & a2 & b2 & Hij & Hi & Hj).
      rewrite <- app_assoc in Hi, Hj. cbn in Hi, Hj.
      set (n := length (ready_postorder (path ++ [L]) l)).
      exists (n + i)%nat, (n + j)%nat, op1, a1, b1, op2, a2, b2.
      split; [by apply Nat.add_lt_mono_l|].
      split; (unfold n; rewrite lookup_app_shift;
              rewrite lookup_app_l; [done|]; by eapply lookup_lt_Some).
Qed.

End Decomposer.

Lemma numbered_lookup (c : Config) (exprID : string)
    (rs : list (NodeRef * string * float * float)) (counter : Z) (i : nat) :
  MinInt64 <= counter ->
  counter + Z.of_nat (length rs) <= MaxInt64 ->
  numbered c exprID counter rs !! i =
  (fun x => let '(p, op, a1, a2) := x in
            mkTask (Sprintf_d (counter + Z.of_nat i + 1)) exprID a1 a2 op
                   (opTime_of c op) (Some p)) <$> (rs !! i).
Proof.
  revert counter i. induction rs as [|[[[p op] a1] a2] rs IH];
    intros counter i Hlo Hhi; [done|].
  rewrite length_cons, Nat2Z.inj_succ in Hhi.
  cbn [numbered]. rewrite wrap64_in_range by lia.
  destruct i as [|i].
  - cbn. by rewrite Z.add_0_r.
  - replace (counter + Z.of_nat (S i) + 1) with (counter + 1 + Z.of_nat i + 1)
      by lia.
    cbn. by rewrite IH by lia.
Qed.

Lemma numbered_nodes (c : Config) (exprID : string)
    (rs : list (NodeRef * string * float * float)) (counter : Z) :
  map task_Node (numbered c exprID counter rs) =
  map (fun x => Some (fst (fst (fst x)))) rs.
Proof.
  revert counter. induction rs as [|[[[p op] a1] a2] rs IH]; intros counter;
    [done|].
  cbn. by rewrite IH.
Qed.

Lemma ready_postorder_length (node : ASTNode) (path : NodeRef) :
  (length (ready_postorder path node) <= operator_nodes node)%nat.
Proof.
  revert path. induction node as [|isLeaf v op l IHl r IHr sched];
    intros path; [done|].
  destruct isLeaf; [done|].
  rewrite ready_postorder_Node, !length_app. cbn [operator_nodes].
  specialize (IHl (path ++ [L])). specialize (IHr (path ++ [R])).
  assert (length (emit_at path op l r sched) <= 1)%nat.
  { unfold emit_at. destruct (leaf_value l), (leaf_value r); cbn; try lia.
    destruct sched; cbn; lia. }
  lia.
Qed.

Lemma Tasks_queue (o : Orchestrator) (expr : Expression) :
  taskQueue (snd (Tasks o expr)) =
  taskQueue o ++
  numbered (OConfig o) (expr_ID expr) (taskCounter o)
           (ready_postorder [] (expr_AST expr)).
Proof.
  unfold Tasks.
  pose proof (traverse_schedules_postorder (expr_ID expr) (expr_AST expr) [] o)
    as H.
  destruct (traverse (expr_ID expr) [] (expr_AST expr) o) as [ast o'].
  cbn [snd] in *. subst o'. apply schedule_all_state.
Qed.

(** C8.  [Tasks] appends to the queue one task per ready node, in the
    post-order (depth first, left to right) of the nodes; the task at
    position [i] of the appended part has the id [taskCounter + i + 1], so
    the ids grow along the queue; and of two ready nodes in the left and in
    the right subtree of a common ancestor, the left one is enqueued first,
    with the smaller id.  (The counter is assumed not to reach the end of
    the [int64] range during the call.) *)
Theorem Tasks_postorder_left_first (o : Orchestrator) (expr : Expression)
    (c s1 s2 : NodeRef) :
  MinInt64 <= taskCounter o ->
  taskCounter o + Z.of_nat (operator_nodes (expr_AST expr)) <= MaxInt64 ->
  ready (node_at (expr_AST expr) (c ++ L :: s1)) = true ->
  ready (node_at (expr_AST expr) (c ++ R :: s2)) = true ->
  exists new : list Task,
    taskQueue (snd (Tasks o expr)) = taskQueue o ++ new /\
    map task_Node new =
      map (fun x => Some (fst (fst (fst x))))
          (ready_postorder [] (expr_AST expr)) /\
    (forall i t, new !! i = Some t ->
       task_ID t = Sprintf_d (taskCounter o + Z.of_nat i + 1)) /\
    exists (i j : nat) (t1 t2 : Task),
      (i < j)%nat /\ new !! i = Some t1 /\ new !! j = Some t2 /\
      task_Node t1 = Some (c ++ L :: s1) /\
      task_Node t2 = Some (c ++ R :: s2) /\
      task_ID t1 = Sprintf_d (taskCounter o + Z.of_nat i + 1) /\
      task_ID t2 = Sprintf_d (taskCounter o + Z.of_nat j + 1) /\
      taskCounter o + Z.of_nat i + 1 < taskCounter o + Z.of_nat j + 1.
Proof.
  intros Hlo Hhi H1 H2.
  pose proof (ready_postorder_length (expr_AST expr) []) as Hlen.
  assert (Hhi' : taskCounter o +
                 Z.of_nat (length (ready_postorder [] (expr_AST expr)))
                 <= MaxInt64) by lia.
  eexists. split; [apply Tasks_queue|]. split; [apply numbered_nodes|].
  split.
  - intros i t. rewrite numbered_lookup by done.
    destruct (_ !! i) as [[[[p op] a1] a2]|]; [|done].
    by intros [= <-].
  - destruct (ready_postorder_left_first c s1 s2 (expr_AST expr) [] H1 H2)
      as (i & j & op1 & a1 & b1 & op2 & a2 & b2 & Hij & Hi & Hj).
    exists i, j. do 2 eexists. split; [done|].
    rewrite !numbered_lookup, Hi, Hj by done. cbn.
    repeat split. lia.
Qed.

Lemma Tasks_postorder_left_first_witness :
  exists new : list Task,
    taskQueue (snd (Tasks (NewOrchestrator ∅ db_one_user)
                          (expression_of ast_two_sums))) = [] ++ new /\
    map task_Node new =
      map (fun x => Some (fst (fst (fst x))))
          (ready_postorder [] ast_two_sums) /\
    (forall i t, new !! i = Some t ->
       task_ID t = Sprintf_d (0 + Z.of_nat i + 1)) /\
    exists (i j : nat) (t1 t2 : Task),
      (i < j)%nat /\ new !! i = Some t1 /\ new !! j = Some t2 /\
      task_Node t1 = Some [L] /\ task_Node t2 = Some [R] /\
      task_ID t1 = Sprintf_d (0 + Z.of_nat i + 1) /\
      task_ID t2 = Sprintf_d (0 + Z.of_nat j + 1) /\
      0 + Z.of_nat i + 1 < 0 + Z.of_nat j + 1.
Proof.
  apply (Tasks_postorder_left_first (NewOrchestrator ∅ db_one_user)
           (expression_of ast_two_sums) [] [] []);
    vm_compute; congruence.
Defined.

(** The example of the spec: for [(1+2)*(3+4)] the left addition is task 1
    and the right addition task 2; the multiplication has no task yet. *)
Example Tasks_two_sums :
  map (fun t => (task_ID t, task_Node t, task_Operation t))
      (taskQueue (snd (Tasks (NewOrchestrator ∅ db_one_user)
                             (expression_of ast_two_sums)))) =
  [("1", Some [L], "+"); ("2", Some [R], "+")]%string.
Proof. vm_compute. reflexivity. Qed.

(** Flags are only ever set: a node that is scheduled stays scheduled. *)
Lemma traverse_keeps_scheduled (exprID : string) (p : NodeRef)
    (node : ASTNode) (path : NodeRef) (o : Orchestrator) :
  scheduled (node_at node p) = true ->
  scheduled (node_at (fst (traverse exprID path node o)) p) = true.
Proof.
  revert node path o. induction p as [|d p IH]; intros node path o.
  - cbn [node_at]. destruct node as [|[] v op l r sched]; try done.
    rewrite traverse_Node. cbn. intros ->. by destruct (emit_at _ _ _ _ _).
  - cbn [node_at]. destruct node as [|[] v op l r sched]; try done.
    rewrite traverse_Node. cbn [fst node_at]. destruct d; apply IH.
Qed.

Lemma ready_not_scheduled (node : ASTNode) :
  ready node = true -> scheduled node = false.
Proof.
  destruct node as [|[] v op l r sched]; try done. cbn.
  destruct l as [|[] ? ? ? ? ?]; try done.
  destruct r as [|[] ? ? ? ? ?]; try done.
  by destruct sched.
Qed.

(** C9.  Running [Tasks] on the result of [Tasks] changes nothing: the
    second run returns the same expression and the same orchestrator state
    (queue, task store and counter included).  And a node whose flag
    [TaskScheduled] is set gets no task from a run of [Tasks], and its flag
    is still set afterwards, so that no later run gives it one either. *)
Theorem Tasks_idempotent (o : Orchestrator) (expr : Expression) :
  Tasks (snd (Tasks o expr)) (fst (Tasks o expr)) = Tasks o expr /\
  forall p : NodeRef,
    scheduled (node_at (expr_AST expr) p) = true ->
    scheduled (node_at (expr_AST (fst (Tasks o expr))) p) = true /\
    exists new : list Task,
      taskQueue (snd (Tasks o expr)) = taskQueue o ++ new /\
      Forall (fun t => task_Node t <> Some p) new.
Proof.
  split.
  - unfold Tasks.
    pose proof (traverse_settles (expr_ID expr) (expr_AST expr) [] [] o) as H.
    destruct (traverse (expr_ID expr) [] (expr_AST expr) o) as [ast o'].
    cbn [fst snd set_expr_AST expr_ID expr_AST] in *.
    by rewrite traverse_nothing_ready.
  - intros p Hp. split.
    + unfold Tasks.
      pose proof (traverse_keeps_scheduled (expr_ID expr) p (expr_AST expr) [] o Hp).
      by destruct (traverse (expr_ID expr) [] (expr_AST expr) o).
    + eexists. split; [apply Tasks_queue|].
      apply Forall_forall. intros t Ht Hnode.
      assert (Hin : In (Some p) (map task_Node
                (numbered (OConfig o) (expr_ID expr) (taskCounter o)
                          (ready_postorder [] (expr_AST expr))))).
      { rewrite <- Hnode. apply in_map. by apply list_elem_of_In. }
      rewrite numbered_nodes in Hin. apply in_map_iff in Hin
        as ([[[q op] a1] a2] & [= ->] & Hin).
      apply ready_postorder_sound in Hin as (p' & Hq & Hready).
      cbn in Hq. subst p'. apply ready_not_scheduled in Hready. congruence.
Qed.

Lemma Tasks_idempotent_witness :
  scheduled (node_at (expr_AST (fst (Tasks (NewOrchestrator ∅ db_one_user)
                                           (expression_of ast_left_scheduled))))
                     [L]) = true /\
  exists new : list Task,
    taskQueue (snd (Tasks (NewOrchestrator ∅ db_one_user)
                          (expression_of ast_left_scheduled))) = [] ++ new /\
    Forall (fun t => task_Node t <> Some [L]) new.
Proof.
  exact (proj2 (Tasks_idempotent (NewOrchestrator ∅ db_one_user)
                                 (expression_of ast_left_scheduled))
               [L] eq_refl).
Defined.

(* ================================================================== *)
(** * 15. Properties: the tasks of an expression over its life         *)
(* ================================================================== *)

Lemma Tasks_Storage (o : Orchestrator) (expr : Expression) :
  Storage (snd (Tasks o expr)) = Storage o.
Proof.
  unfold Tasks.
  pose proof (traverse_schedules_postorder (expr_ID expr) (expr_AST expr) [] o)
    as H.
  destruct (traverse (expr_ID expr) [] (expr_AST expr) o) as [ast o'].
  cbn [snd] in *. subst o'. apply schedule_all_state.
Qed.

(** Only [calculateHandler] touches the queue, the task store and the task
    counter. *)
Lemma serve_keeps_tasks (ParseAST : string -> ASTNode + string)
    (o : Orchestrator) (c : Endpoint * Z * Request) :
  is_calculate c = false ->
  taskQueue (serve ParseAST o c) = taskQueue o /\
  taskStore (serve ParseAST o c) = taskStore o /\
  taskCounter (serve ParseAST o c) = taskCounter o.
Proof.
  destruct c as [[e now] r]. unfold is_calculate, serve. cbn [fst].
  destruct e; [done| | |]; intros _; cbn [handler_of].
  - unfold expressionIDHandler. destruct (negb _); [done|].
    destruct (slice_from _ _) as [id|]; [|done].
    destruct (exprStore o !! id) as [expr|]; [|done].
    by destruct (expr_AST expr) as [|[] ? ? ? ? ?].
  - unfold getTaskHandler.
    destruct (GetPendingTask _ _) as [[t db1]|err]; [done|]. by destruct err.
  - unfold postTaskHandler. destruct (Body r) as [req|]; [|done].
    by destruct (CompleteTask _ _ _).
Qed.

Lemma run_keeps_tasks (ParseAST : string -> ASTNode + string)
    (calls : list (Endpoint * Z * Request)) (o : Orchestrator) :
  Forall (fun c => is_calculate c = false) calls ->
  taskQueue (run ParseAST o calls) = taskQueue o /\
  taskStore (run ParseAST o calls) = taskStore o /\
  taskCounter (run ParseAST o calls) = taskCounter o.
Proof.
  intros H. revert o. induction H as [|c calls Hc _ IH]; intros o; [done|].
  change (run ParseAST o (c :: calls))
    with (run ParseAST (serve ParseAST o c) calls).
  destruct (IH (serve ParseAST o c)) as (-> & -> & ->).
  by apply serve_keeps_tasks.
Qed.

(** C1.  Code at the failing input: the text [2+2*2] parses to a tree with
    two operator nodes.  Its creation generates one task, for [2*2].  After
    that, whatever calls follow for fetching tasks, submitting results and
    querying, the queue and the task store hold this one task and the
    counter stays at 1: the addition never gets a task. *)
Theorem lifetime_tasks_2_plus_2_times_2 (calls : list (Endpoint * Z * Request)) :
  let o' := run ParseAST_spec o_2_plus_2_times_2
                (List.filter (fun c => negb (is_calculate c)) calls) in
  ParseAST_spec "2+2*2" = inl ast_2_plus_2_times_2 /\
  operator_nodes ast_2_plus_2_times_2 = 2%nat /\
  map (fun t => (task_ID t, task_Operation t, task_Node t))
      (tasks_of "1" (taskQueue o')) = [("1", "*", Some [R])]%string /\
  length (taskQueue o') = 1%nat /\
  size (taskStore o') = 1%nat /\
  taskCounter o' = 1.
Proof.
  cbv zeta.
  destruct (run_keeps_tasks ParseAST_spec
              (List.filter (fun c => negb (is_calculate c)) calls)
              o_2_plus_2_times_2) as (-> & -> & ->).
  { apply Forall_forall. intros c Hc%list_elem_of_In%filter_In.
    destruct Hc as [_ Hc]. by destruct (is_calculate c). }
  repeat split; vm_compute; reflexivity.
Qed.

(* ================================================================== *)
(** * 16. Further properties: the decomposer                           *)
(* ================================================================== *)

Lemma schedule_all_stores (exprID : string)
    (rs : list (NodeRef * string * float * float)) (o : Orchestrator) :
  taskStore (schedule_all exprID rs o) =
    store_all (taskStore o) (numbered (OConfig o) exprID (taskCounter o) rs) /\
  taskCounter (schedule_all exprID rs o) = advance (taskCounter o) (length rs) /\
  exprCounter (schedule_all exprID rs o) = exprCounter o.
Proof.
  revert o. induction rs as [|[[[p op] a1] a2] rs IH]; intros o; [done|].
  change (schedule_all exprID ((p, op, a1, a2) :: rs) o)
    with (schedule_all exprID rs (schedule exprID p op a1 a2 o)).
  destruct (IH (schedule exprID p op a1 a2 o)) as (Hs & Hc & He).
  rewrite Hs, Hc, He. unfold advance. rewrite length_cons, Nat.iter_succ_r. done.
Qed.

Lemma advance_in_range (counter : Z) (n : nat) :
  MinInt64 <= counter -> counter + Z.of_nat n <= MaxInt64 ->
  advance counter n = counter + Z.of_nat n.
Proof.
  unfold advance. induction n as [|n IH]; intros Hlo Hhi.
  - cbn. lia.
  - rewrite Nat2Z.inj_succ in Hhi. rewrite Nat.iter_succ, IH by lia.
    rewrite wrap64_in_range; lia.
Qed.

Lemma traverse_erase_flags (exprID : string) (node : ASTNode) (path : NodeRef)
    (o : Orchestrator) :
  erase_flags (fst (traverse exprID path node o)) = erase_flags node.
Proof.
  revert path o.
  induction node as [|isLeaf v op l IHl r IHr sched]; intros path o; [done|].
  destruct isLeaf; [done|].
  rewrite traverse_Node. cbn. by rewrite IHl, IHr.
Qed.

Lemma Tasks_state (o : Orchestrator) (expr : Expression) :
  fst (Tasks o expr) =
    set_expr_AST expr (fst (traverse (expr_ID expr) [] (expr_AST expr) o)) /\
  snd (Tasks o expr) =
    schedule_all (expr_ID expr) (ready_postorder [] (expr_AST expr)) o.
Proof.
  unfold Tasks.
  pose proof (traverse_schedules_postorder (expr_ID expr) (expr_AST expr) [] o)
    as H.
  by destruct (traverse (expr_ID expr) [] (expr_AST expr) o) as [ast o'].
Qed.

(** X1.  [Tasks] changes nothing of the tree but flags: structure, values
    and operators are the ones it was given.  Of the expression it changes
    the tree only, and of the orchestrator the queue, the task store and the
    task counter only. *)
Theorem Tasks_changes_flags_only (o : Orchestrator) (expr : Expression) :
  erase_flags (expr_AST (fst (Tasks o expr))) = erase_flags (expr_AST expr) /\
  set_expr_AST (fst (Tasks o expr)) (expr_AST expr) = expr /\
  OConfig (snd (Tasks o expr)) = OConfig o /\
  Storage (snd (Tasks o expr)) = Storage o /\
  exprStore (snd (Tasks o expr)) = exprStore o /\
  exprCounter (snd (Tasks o expr)) = exprCounter o.
Proof.
  destruct (Tasks_state o expr) as [-> ->].
  destruct (schedule_all_state (expr_ID expr)
              (ready_postorder [] (expr_AST expr)) o) as (_ & Hc & Hs & He).
  destruct (schedule_all_stores (expr_ID expr)
              (ready_postorder [] (expr_AST expr)) o) as (_ & _ & Hx).
  repeat split; try done.
  - apply traverse_erase_flags.
  - by destruct expr.
Qed.

(** Every entry of the post-order list names an operator node of the tree
    whose children are leaves with the values of the entry. *)
Lemma ready_postorder_entry (node : ASTNode) (path q : NodeRef) (op : string)
    (a1 a2 : float) :
  In (q, op, a1, a2) (ready_postorder path node) ->
  exists p v l r,
    q = path ++ p /\ node_at node p = Node false v op l r false /\
    leaf_value l = Some a1 /\ leaf_value r = Some a2.
Proof.
  revert path.
  induction node as [|isLeaf v op' l IHl r IHr sched]; intros path; [done|].
  destruct isLeaf; [done|].
  rewrite ready_postorder_Node, !in_app_iff. intros [H|[H|H]].
  - destruct (IHl _ H) as (p & v' & l' & r' & -> & Hp & Hl & Hr).
    exists (L :: p), v', l', r'. by rewrite <- app_assoc.
  - destruct (IHr _ H) as (p & v' & l' & r' & -> & Hp & Hl & Hr).
    exists (R :: p), v', l', r'. by rewrite <- app_assoc.
  - unfold emit_at in H.
    destruct (leaf_value l) as [b1|] eqn:Hl; [|done].
    destruct (leaf_value r) as [b2|] eqn:Hr; [|done].
    destruct sched; [done|]. destruct H as [[= <- <- <- <-]|[]].
    exists [], v, l, r. by rewrite app_nil_r.
Qed.

Lemma numbered_In (c : Config) (exprID : string)
    (rs : list (NodeRef * string * float * float)) (counter : Z) (t : Task) :
  In t (numbered c exprID counter rs) ->
  exists p op a1 a2,
    In (p, op, a1, a2) rs /\
    task_ExprID t = exprID /\ task_Arg1 t = a1 /\ task_Arg2 t = a2 /\
    task_Operation t = op /\ task_OperationTime t = opTime_of c op /\
    task_Node t = Some p.
Proof.
  revert counter. induction rs as [|[[[p op] a1] a2] rs IH]; intros counter;
    [done|].
  cbn [numbered]. intros [<-|H].
  - exists p, op, a1, a2. repeat split. by left.
  - destruct (IH _ H) as (p' & op' & b1 & b2 & Hin & Ht).
    exists p', op', b1, b2. split; [by right|done].
Qed.

(** X2.  Every task that [Tasks] appends belongs to the expression and comes
    from an operator node of its tree whose two children are leaves: the
    arguments of the task are the values of the children, its operation is
    the operator of the node, and its duration is the configured cost of
    that operator.  No task is made for a node with an unresolved operand. *)
Theorem Tasks_task_content (o : Orchestrator) (expr : Expression) :
  exists new : list Task,
    taskQueue (snd (Tasks o expr)) = taskQueue o ++ new /\
    Forall (fun t =>
      task_ExprID t = expr_ID expr /\
      task_OperationTime t = opTime_of (OConfig o) (task_Operation t) /\
      exists p v l r,
        task_Node t = Some p /\
        node_at (expr_AST expr) p = Node false v (task_Operation t) l r false /\
        leaf_value l = Some (task_Arg1 t) /\
        leaf_value r = Some (task_Arg2 t)) new.
Proof.
  eexists. split; [apply Tasks_queue|].
  apply List.Forall_forall. intros t Ht.
  apply numbered_In in Ht
    as (p & op & a1 & a2 & Hin & He & <- & <- & <- & Htime & Hnode).
  apply ready_postorder_entry in Hin as (p' & v & l & r & Hq & Hat & Hl & Hr).
  cbn in Hq. subst p'. repeat split; try done. by exists p, v, l, r.
Qed.

(** X3.  After [Tasks] no node of the tree is ready: every operator node
    that [traverse] reaches and whose two children are leaves has its flag
    [TaskScheduled] set. *)
Theorem Tasks_leaves_nothing_ready (o : Orchestrator) (expr : Expression)
    (p : NodeRef) :
  ready (node_at (expr_AST (fst (Tasks o expr))) p) = false.
Proof.
  destruct (Tasks_state o expr) as [-> _]. cbn [expr_AST set_expr_AST].
  destruct (ready _) eqn:Hr; [|done].
  apply (ready_postorder_complete p _ []) in Hr as (i & op & a1 & a2 & Hi).
  by rewrite traverse_settles in Hi.
Qed.

Lemma store_all_lookup_other (ts : list Task) (m : gmap string Task)
    (id : string) :
  ~ In id (map task_ID ts) -> store_all m ts !! id = m !! id.
Proof.
  revert m. induction ts as [|t ts IH]; intros m Hid; [done|].
  cbn in Hid |- *. fold (store_all (<[task_ID t := t]> m) ts).
  rewrite IH by tauto. apply lookup_insert_ne. tauto.
Qed.

Lemma store_all_lookup (ts : list Task) (m : gmap string Task) (t : Task) :
  List.NoDup (map task_ID ts) -> In t ts ->
  store_all m ts !! task_ID t = Some t.
Proof.
  revert m. induction ts as [|x ts IH]; intros m Hnd Hin; [done|].
  cbn [map] in Hnd. apply List.NoDup_cons_iff in Hnd as [Hx Hnd].
  cbn. fold (store_all (<[task_ID x := x]> m) ts). destruct Hin as [->|Hin].
  - rewrite store_all_lookup_other by done. apply lookup_insert_eq.
  - by apply IH.
Qed.

Lemma numbered_ids_NoDup (c : Config) (exprID : string)
    (rs : list (NodeRef * string * float * float)) (counter : Z) :
  MinInt64 <= counter ->
  counter + Z.of_nat (length rs) <= MaxInt64 ->
  List.NoDup (map task_ID (numbered c exprID counter rs)).
Proof.
  intros Hlo Hhi. apply NoDup_ListNoDup, NoDup_alt. intros i j id.
  rewrite !list_lookup_fmap, !numbered_lookup by done.
  destruct (rs !! i) as [[[[p1 op1] a1] b1]|]; [|done].
  destruct (rs !! j) as [[[[p2 op2] a2] b2]|]; [|done].
  cbn. intros [= <-] [= Heq%Sprintf_d_inj]. lia.
Qed.

Lemma numbered_length (c : Config) (exprID : string)
    (rs : list (NodeRef * string * float * float)) (counter : Z) :
  length (numbered c exprID counter rs) = length rs.
Proof.
  revert counter. induction rs as [|[[[p op] a1] a2] rs IH]; intros counter;
    [done|].
  cbn. by rewrite IH.
Qed.

(** X4.  After [Tasks] the task store and the queue agree: every task that
    was appended to the queue is found in the store under its id, the
    entries under other ids are the ones the store had, and the counter has
    advanced by the number of appended tasks.  (The counter is assumed not
    to reach the end of the [int64] range during the call.) *)
Theorem Tasks_store_lookup (o : Orchestrator) (expr : Expression) :
  MinInt64 <= taskCounter o ->
  taskCounter o + Z.of_nat (operator_nodes (expr_AST expr)) <= MaxInt64 ->
  exists new : list Task,
    taskQueue (snd (Tasks o expr)) = taskQueue o ++ new /\
    (forall t, In t new -> taskStore (snd (Tasks o expr)) !! task_ID t = Some t) /\
    (forall id, ~ In id (map task_ID new) ->
       taskStore (snd (Tasks o expr)) !! id = taskStore o !! id) /\
    taskCounter (snd (Tasks o expr)) = taskCounter o + Z.of_nat (length new).
Proof.
  intros Hlo Hhi.
  pose proof (ready_postorder_length (expr_AST expr) []) as Hlen.
  assert (Hhi' : taskCounter o +
                 Z.of_nat (length (ready_postorder [] (expr_AST expr)))
                 <= MaxInt64) by lia.
  eexists. split; [apply Tasks_queue|].
  destruct (Tasks_state o expr) as [_ ->].
  destruct (schedule_all_stores (expr_ID expr)
              (ready_postorder [] (expr_AST expr)) o) as (-> & -> & _).
  repeat split.
  - intros t Ht. apply store_all_lookup; [|done].
    by apply numbered_ids_NoDup.
  - intros id Hid. by apply store_all_lookup_other.
  - rewrite numbered_length. by apply advance_in_range.
Qed.

Lemma Tasks_store_lookup_witness :
  exists new : list Task,
    taskQueue (snd (Tasks (NewOrchestrator ∅ db_one_user)
                          (expression_of ast_two_sums))) = [] ++ new /\
    (forall t, In t new ->
       taskStore (snd (Tasks (NewOrchestrator ∅ db_one_user)
                             (expression_of ast_two_sums))) !! task_ID t
       = Some t) /\
    (forall id, ~ In id (map task_ID new) ->
       taskStore (snd (Tasks (NewOrchestrator ∅ db_one_user)
                             (expression_of ast_two_sums))) !! id
       = (∅ : gmap string Task) !! id) /\
    taskCounter (snd (Tasks (NewOrchestrator ∅ db_one_user)
                            (expression_of ast_two_sums)))
    = 0 + Z.of_nat (length new).
Proof.
  apply (Tasks_store_lookup (NewOrchestrator ∅ db_one_user)
           (expression_of ast_two_sums)); vm_compute; congruence.
Defined.

(* ================================================================== *)
(** * 17. Properties: a task that the worker can not compute           *)
(* ================================================================== *)

Lemma node_at_app (node : ASTNode) (p q : NodeRef) :
  node_at node (p ++ q) = node_at (node_at node p) q.
Proof.
  revert node. induction p as [|d p IH]; intros node; [by destruct node|].
  destruct node as [|[] v op l r sched]; cbn;
    [by destruct q..|apply IH].
Qed.

(** A node with a task scheduled is an operator node, and so is every node
    above it: the root of its tree is no leaf. *)
Lemma scheduled_root (node : ASTNode) (p : NodeRef) :
  scheduled (node_at node p) = true -> leaf_value node = None.
Proof.
  destruct node as [|[] v op l r sched]; try done.
  by destruct p.
Qed.

(** A ready node is neither the node with the task nor above it: a node
    above has a child that is no leaf. *)
Lemma ready_not_above (node : ASTNode) (p q : NodeRef) :
  scheduled (node_at node p) = true ->
  ready (node_at node q) = true ->
  ~ q `prefix_of` p.
Proof.
  intros Hs Hr [rest ->]. rewrite node_at_app in Hs.
  destruct (node_at node q) as [|[] v op l r sched]; try done.
  cbn in Hr.
  destruct l as [|[] ? ? ? ? ?]; try done.
  destruct r as [|[] ? ? ? ? ?]; try done.
  destruct rest as [|[] [|d rest]]; cbn in Hs; try done.
  by destruct sched.
Qed.

(** The result of another node leaves the node with the task as it is. *)
Lemma resolve_keeps_scheduled (node : ASTNode) (p q : NodeRef) (v : float) :
  ~ q `prefix_of` p ->
  scheduled (node_at node p) = true ->
  scheduled (node_at (resolve node q v) p) = true.
Proof.
  revert node q. induction p as [|d p IH]; intros node q Hq.
  - destruct q as [|e q]; [by destruct Hq; apply prefix_nil|].
    destruct node as [|[] v0 op l r sched]; try done. by destruct e.
  - destruct q as [|e q]; [by destruct Hq; apply prefix_nil|].
    destruct node as [|[] v0 op l r sched]; try done.
    assert (Hq' : d = e -> ~ q `prefix_of` p).
    { intros -> Hpre. apply Hq. by apply prefix_cons. }
    destruct d, e; cbn; try done; apply IH; auto.
Qed.

Lemma store_all_lookup_inv (ts : list Task) (m : gmap string Task)
    (id : string) (t : Task) :
  store_all m ts !! id = Some t -> In t ts \/ m !! id = Some t.
Proof.
  revert m. induction ts as [|x ts IH]; intros m; [by right|].
  cbn. fold (store_all (<[task_ID x := x]> m) ts).
  intros [H|H]%IH; [by left; right|].
  apply lookup_insert_Some in H as [[_ <-]|[_ H]]; [by left; left|by right].
Qed.

Lemma store_all_lookup_new (ts : list Task) (m : gmap string Task) (t t' : Task) :
  In t ts -> store_all m ts !! task_ID t = Some t' -> In t' ts.
Proof.
  revert m. induction ts as [|x ts IH]; intros m; [done|].
  cbn. fold (store_all (<[task_ID x := x]> m) ts). intros [->|Hin] Hl.
  - apply store_all_lookup_inv in Hl as [H|H]; [by right|].
    rewrite lookup_insert_eq in H. injection H as <-. by left.
  - right. by eapply IH.
Qed.

(** What a run of [Tasks] does to the scheduler: the new tasks are for ready
    nodes of the tree, and they enter the queue and the task store. *)
Lemma Tasks_effect (o : Orchestrator) (expr : Expression) :
  exists new : list Task,
    taskQueue (snd (Tasks o expr)) = taskQueue o ++ new /\
    taskStore (snd (Tasks o expr)) = store_all (taskStore o) new /\
    exprStore (snd (Tasks o expr)) = exprStore o /\
    fst (Tasks o expr) =
      set_expr_AST expr (fst (traverse (expr_ID expr) [] (expr_AST expr) o)) /\
    forall t, In t new ->
      task_ExprID t = expr_ID expr /\
      exists q, task_Node t = Some q /\ ready (node_at (expr_AST expr) q) = true.
Proof.
  eexists. split; [apply Tasks_queue|].
  destruct (Tasks_state o expr) as [-> ->].
  destruct (schedule_all_stores (expr_ID expr)
              (ready_postorder [] (expr_AST expr)) o) as (-> & _ & _).
  destruct (schedule_all_state (expr_ID expr)
              (ready_postorder [] (expr_AST expr)) o) as (_ & _ & _ & ->).
  repeat split.
  - by apply numbered_In in H as (q & op & a1 & a2 & _ & He & _).
  - apply numbered_In in H as (q & op & a1 & a2 & Hin & _ & _ & _ & _ & _ & Hn).
    apply ready_postorder_sound in Hin as (q' & -> & Hr). by exists q'.
Qed.

(** Whatever the service behind the client does: the turn of a worker whose
    task can not be computed ends with the log entry.  It does not call
    [SubmitResult] and it computes once; the state of the orchestrator is the
    one that [GetTask] left. *)
Lemma Worker_turn_computation_error (S : Type)
    (Client_GetTask : S -> Z -> result Task * S)
    (Client_SubmitResult : S -> string -> float -> result unit * S)
    (s s1 : S) (now : Z) (t : Task) (err : calc_error) :
  Client_GetTask s now = (Ok t, s1) ->
  String.eqb (task_ID t) "" = false ->
  Calculations (task_Operation t) (task_Arg1 t) (task_Arg2 t) = inr err ->
  Worker_turn S Client_GetTask Client_SubmitResult s now =
    (s1, failed_turn_trace t).
Proof.
  intros Hget Hid Hcalc. unfold Worker_turn. by rewrite Hget, Hid, Hcalc.
Qed.

Section Stuck.

Variables (eid : string) (p : NodeRef) (tid : string).

Lemma stuck_fetch (o : Orchestrator) :
  stuck o eid p tid -> stuck (snd (FetchTask o)) eid p tid.
Proof.
  intros H. unfold FetchTask.
  destruct (taskQueue o) as [|t q] eqn:Hqueue; [exact H|].
  destruct H as [Hp Hk Hs Hq]. constructor; try done.
  cbn. intros t' Ht'. apply Hq. rewrite Hqueue. by right.
Qed.

Lemma stuck_delete (o : Orchestrator) (id : string) :
  stuck o eid p tid ->
  stuck (set_taskStore o (delete id (taskStore o))) eid p tid.
Proof.
  intros [Hp Hk Hs Hq]. constructor; try done; cbn.
  - intros id' t [_ Hl]%lookup_delete_Some. by apply Hs.
  - intros t Ht. destruct (Hq t Ht) as [Hb Hst]. split; [done|].
    intros t' [_ Hl]%lookup_delete_Some. by apply Hst.
Qed.

(** The decomposer runs on an expression, which is then stored: on another
    expression, or on the expression [eid] with its node at [p] as it is. *)
Lemma stuck_decompose (o : Orchestrator) (e : Expression)
    (g : Expression -> Expression) :
  stuck o eid p tid ->
  (forall x, expr_ID (g x) = expr_ID x) ->
  (forall x, leaf_value (expr_AST x) = None -> g x = x) ->
  (expr_ID e = eid ->
   expr_Status e = "pending"%string /\
   scheduled (node_at (expr_AST e) p) = true) ->
  stuck (set_exprStore (snd (Tasks o e))
           (<[expr_ID e := g (fst (Tasks o e))]> (exprStore (snd (Tasks o e)))))
        eid p tid.
Proof.
  intros [Hp Hk Hs Hq] Hgid Hg He.
  destruct (Tasks_effect o e) as (new & Hqueue & Hstore & Hexpr & Hfst & Hnew).
  assert (Hfree : forall t, In t new -> ~ blocks eid p t).
  { intros t Ht [Hid (q & Hnode & Hpre)].
    destruct (Hnew t Ht) as [Hid' (q' & Hnode' & Hr)].
    rewrite Hnode in Hnode'. injection Hnode' as <-.
    destruct He as [_ Hsched]; [congruence|].
    by eapply ready_not_above. }
  constructor; cbn.
  - rewrite Hexpr. destruct (decide (expr_ID e = eid)) as [Heq|Hne].
    + destruct (He Heq) as [Hst Hsched]. subst eid.
      rewrite lookup_insert_eq. rewrite Hfst.
      assert (Hs' : scheduled
                      (node_at (fst (traverse (expr_ID e) [] (expr_AST e) o)) p)
                    = true) by by apply traverse_keeps_scheduled.
      rewrite Hg by (cbn; by eapply scheduled_root).
      eexists. split; [done|]. by cbn.
    + by rewrite lookup_insert_ne.
  - rewrite Hexpr. intros k x [[<- <-]|[_ Hl]]%lookup_insert_Some; [|by apply Hk].
    rewrite Hgid, Hfst. by destruct e.
  - rewrite Hstore. intros id t [Ht|Hl]%store_all_lookup_inv Hb.
    + by destruct (Hfree t Ht).
    + by eapply Hs.
  - rewrite Hqueue, Hstore. intros t [Ht|Ht]%in_app_iff.
    + destruct (Hq t Ht) as [Hb Hst]. split; [done|].
      intros t' [Ht'|Hl]%store_all_lookup_inv; [by apply Hfree|by apply Hst].
    + split; [by apply Hfree|].
      intros t' Hl. eapply Hfree, store_all_lookup_new; [exact Ht|exact Hl].
Qed.

(** A result for a task that is not for the node at [p] or a node above it
    leaves the situation as it is. *)
Lemma stuck_submit (o : Orchestrator) (id : string) (value : float) :
  stuck o eid p tid ->
  (forall t, taskStore o !! id = Some t -> ~ blocks eid p t) ->
  stuck (snd (SubmitResult o id value)) eid p tid.
Proof.
  intros Hstuck Hfree. unfold SubmitResult.
  destruct (taskStore o !! id) as [t|] eqn:Ht; [|done].
  destruct (in_queue o id); [done|].
  destruct (exprStore o !! task_ExprID t) as [e|] eqn:He; [|done].
  destruct (task_Node t) as [q|] eqn:Hnode; [|done].
  pose proof (stuck_delete o id Hstuck) as Hdel.
  set (o1 := set_taskStore o (delete id (taskStore o))) in *.
  set (e' := set_expr_AST e (resolve (expr_AST e) q value)).
  assert (Hid : expr_ID e' = task_ExprID t).
  { cbn. by apply (stuck_keys _ _ _ _ Hstuck). }
  pose proof (stuck_decompose o1 e' promote Hdel) as H.
  rewrite Hid in H. destruct (Tasks o1 e') as [e1 o2]. cbn [fst snd] in *.
  apply H.
  - intros x. unfold promote. by destruct (expr_AST x) as [|[] ? ? ? ? ?].
  - intros x Hx. unfold promote. by destruct (expr_AST x) as [|[] ? ? ? ? ?].
  - intros Heq. destruct (stuck_pending _ _ _ _ Hstuck) as (e0 & He0 & Hst & Hs).
    rewrite Heq, He0 in He. injection He as <-. split; [done|]. cbn.
    apply resolve_keeps_scheduled; [|done].
    intros Hpre. apply (Hfree t eq_refl). split; [done|]. by exists q.
Qed.

Lemma stuck_turn (o : Orchestrator) (now : Z) :
  stuck o eid p tid -> stuck (fst (Worker_turn_scheduler o now)) eid p tid.
Proof.
  intros Hstuck. unfold Worker_turn_scheduler, Worker_turn, rpc_GetTask.
  pose proof (stuck_fetch o Hstuck) as Hf. unfold FetchTask in *.
  destruct (taskQueue o) as [|t q] eqn:Hqueue; [done|]. cbn [snd] in Hf.
  destruct (String.eqb (task_ID t) ""); [done|].
  destruct (Calculations _ _ _) as [res|err]; [|done].
  unfold rpc_SubmitResult.
  pose proof (stuck_submit _ (task_ID t) res Hf) as Hsub.
  destruct (SubmitResult _ _ _) as [[] o2]; cbn [fst snd] in *; apply Hsub;
    intros t'; apply (stuck_queue _ _ _ _ Hstuck); rewrite Hqueue; by left.
Qed.

Lemma stuck_step (o o' : Orchestrator) :
  sys_step tid o o' -> stuck o eid p tid -> stuck o' eid p tid.
Proof.
  intros [o0 now|o0|o0 id v Hid|o0 e He] Hstuck.
  - by apply stuck_turn.
  - by apply stuck_fetch.
  - apply stuck_submit; [done|]. intros t Ht Hb.
    apply Hid. by eapply stuck_store.
  - unfold SubmitExpression.
    pose proof (stuck_decompose o0 e (fun x => x) Hstuck) as H.
    destruct (Tasks o0 e) as [e1 o1]. cbn [fst snd] in *. apply H; try done.
    intros Heq. rewrite Heq in He.
    destruct (stuck_pending _ _ _ _ Hstuck) as (e0 & He0 & _). congruence.
Qed.

Lemma stuck_run (o o' : Orchestrator) :
  rtc (sys_step tid) o o' -> stuck o eid p tid -> stuck o' eid p tid.
Proof. induction 1; eauto using stuck_step. Qed.

End Stuck.

(** C6.  A worker fetches a task whose computation fails (division by zero,
    or an operator that [Calculations] does not know).  The turn computes
    once, logs the failure and ends without a call of [SubmitResult]; the
    scheduler is left as the fetch left it.  From then on, whatever turns
    of workers, fetches, results for other tasks and new expressions follow:
    the expression of the task is [pending] (never [error], never
    [completed]) and its node still waits for the result; the task is not
    in the queue, so that no worker is given it again; and no turn of a
    worker submits a result under an id that stands for the task. *)
Theorem failed_task_expression_stays_pending (o o1 : Orchestrator) (now : Z)
    (t : Task) (p : NodeRef) :
  FetchTask o = (Some t, o1) ->
  task_ID t <> ""%string ->
  cannot_compute t = true ->
  task_Node t = Some p ->
  stuck o1 (task_ExprID t) p (task_ID t) ->
  Worker_turn_scheduler o now = (o1, failed_turn_trace t) /\
  forall o' : Orchestrator,
    rtc (sys_step (task_ID t)) o1 o' ->
    (exists e, exprStore o' !! task_ExprID t = Some e /\
               expr_Status e = "pending"%string /\
               scheduled (node_at (expr_AST e) p) = true) /\
    ~ In t (taskQueue o') /\
    forall (now' : Z) (id : string) (res : float),
      In (EvSubmitResult id res) (snd (Worker_turn_scheduler o' now')) ->
      taskStore o' !! id <> Some t.
Proof.
  intros Hfetch Hid Hfail Hnode Hstuck.
  assert (Hblocks : blocks (task_ExprID t) p t).
  { split; [done|]. by exists p. }
  split.
  - unfold cannot_compute in Hfail.
    destruct (Calculations _ _ _) as [res|err] eqn:Hcalc; [done|].
    apply (Worker_turn_computation_error _ _ _ _ _ _ _ err); [|by apply String.eqb_neq|done].
    unfold rpc_GetTask. by rewrite Hfetch.
  - intros o' Hrun.
    pose proof (stuck_run _ _ _ _ _ Hrun Hstuck) as [Hp Hk Hs Hq].
    split; [done|]. split.
    + intros Hin. by destruct (Hq t Hin).
    + intros now' id res.
      unfold Worker_turn_scheduler, Worker_turn, rpc_GetTask, FetchTask.
      destruct (taskQueue o') as [|t' q] eqn:Hqueue.
      { cbn. intros [|[|[]]]; done. }
      destruct (String.eqb (task_ID t') ""); [cbn; intros [|[|[]]]; done|].
      assert (Hfree : taskStore o' !! task_ID t' <> Some t).
      { intros Hl. by apply (proj2 (Hq t' ltac:(by left)) t Hl). }
      destruct (Calculations _ _ _) as [res'|err].
      * destruct (rpc_SubmitResult _ _ _) as [[] o2]; cbn;
          intros [|[|[|[|[H|[|[]]]]]]]; try done;
          by injection H as <- _.
      * cbn. intros [|[|[|[|[|[]]]]]]; done.
Qed.

(** The run of the example: the first turn fails on [10/0]; the next two
    compute [2*2] and then [2+4], and the expression [2+2*2] is completed
    with the result 6; the expression [10/0] is [pending] throughout.  A
    fourth turn finds no task. *)
Example Worker_turns_division_by_zero :
  map (fun o => snd (Worker_turn_scheduler o 20))
      [scheduler_division_by_zero; scheduler_after_turn;
       scheduler_after_two_turns; scheduler_after_three_turns] =
  [failed_turn_trace task_10_by_0;
   [EvGetTask; EvLog "received task"; EvSleep 100; EvCompute "*" 2 2;
    EvSubmitResult "2" 4; EvLog "successfully completed task"];
   [EvGetTask; EvLog "received task"; EvSleep 100; EvCompute "+" 2 4;
    EvSubmitResult "3" 6; EvLog "successfully completed task"];
   [EvGetTask; EvSleep 1000]] /\
  map (fun o => (expr_Status <$> exprStore o !! "1"%string,
                 expr_Status <$> exprStore o !! "2"%string,
                 expr_Result <$> exprStore o !! "2"%string))
      [scheduler_after_turn; scheduler_after_two_turns;
       scheduler_after_three_turns] =
  [(Some "pending", Some "pending", Some None);
   (Some "pending", Some "pending", Some None);
   (Some "pending", Some "completed", Some (Some 6%float))]%string.
Proof. split; vm_compute; reflexivity. Qed.

Lemma scheduler_after_turn_stuck : stuck scheduler_after_turn "1" [] "1".
Proof.
  assert (Hexprs : (fun ke => (fst ke, expr_ID (snd ke))) <$>
                     map_to_list (exprStore scheduler_after_turn)
                   = [("1", "1"); ("2", "2")]%string) by (vm_compute; reflexivity).
  assert (Htasks : map_to_list (taskStore scheduler_after_turn)
                   = [("1"%string, task_10_by_0); ("2"%string, task_2_times_2)])
    by (vm_compute; reflexivity).
  assert (Hqueue : taskQueue scheduler_after_turn = [task_2_times_2])
    by (vm_compute; reflexivity).
  assert (Hfree : ~ blocks "1" [] task_2_times_2) by (by intros [Hb _]).
  assert (Hstore : forall id t,
            taskStore scheduler_after_turn !! id = Some t ->
            (id = "1"%string /\ t = task_10_by_0) \/
            (id = "2"%string /\ t = task_2_times_2)).
  { intros id t Hl%elem_of_map_to_list. rewrite Htasks in Hl.
    apply list_elem_of_In in Hl. cbn in Hl.
    destruct Hl as [[= <- <-]|[[= <- <-]|[]]]; auto. }
  constructor.
  - eexists. split; [vm_compute; reflexivity|]. split; reflexivity.
  - intros k e Hl%elem_of_map_to_list.
    apply (list_elem_of_fmap_2 (fun ke => (fst ke, expr_ID (snd ke)))) in Hl.
    rewrite Hexprs in Hl. apply list_elem_of_In in Hl. cbn in Hl.
    destruct Hl as [[= <- <-]|[[= <- <-]|[]]]; done.
  - intros id t [[-> ->]|[-> ->]]%Hstore Hb; [done|by destruct Hfree].
  - rewrite Hqueue. intros t [<-|[]]. split; [done|].
    by intros t' [[? ->]|[_ ->]]%Hstore.
Qed.

Lemma failed_task_expression_stays_pending_witness :
  Worker_turn_scheduler scheduler_division_by_zero 20 =
    (scheduler_after_turn, failed_turn_trace task_10_by_0) /\
  forall o' : Orchestrator,
    rtc (sys_step "1") scheduler_after_turn o' ->
    (exists e, exprStore o' !! "1"%string = Some e /\
               expr_Status e = "pending"%string /\
               scheduled (node_at (expr_AST e) []) = true) /\
    ~ In task_10_by_0 (taskQueue o') /\
    forall (now' : Z) (id : string) (res : float),
      In (EvSubmitResult id res) (snd (Worker_turn_scheduler o' now')) ->
      taskStore o' !! id <> Some task_10_by_0.
Proof.
  apply (failed_task_expression_stays_pending scheduler_division_by_zero
           scheduler_after_turn 20 task_10_by_0 []).
  - vm_compute. reflexivity.
  - done.
  - reflexivity.
  - reflexivity.
  - exact scheduler_after_turn_stuck.
Defined.

(* ================================================================== *)
(** * 18. Further properties: fetching and completing tasks            *)
(* ================================================================== *)


(** ** The database along the calls of the handlers *)

Lemma serve_db_steps (ParseAST : string -> ASTNode + string)
    (o : Orchestrator) (c : Endpoint * Z * Request) :
  rtc db_step (Storage o) (Storage (serve ParseAST o c)).
Proof.
  destruct c as [[e now] r]. unfold serve. destruct e; cbn [handler_of].
  - unfold calculateHandler. destruct (Body r) as [req|]; [|done].
    destruct (CreateExpression _ _ _ _) as [[expr db1]|err] eqn:Hc; [|done].
    destruct (ParseAST _) as [ast|err].
    + pose proof (Tasks_Storage (set_Storage o db1) (set_expr_AST expr ast)) as HS.
      destruct (Tasks _ _) as [e' o2]. cbn in HS |- *. rewrite HS.
      apply rtc_once. by eapply db_create.
    + cbn. eapply rtc_l; [by eapply db_create|].
      apply rtc_once. apply db_mark_error.
  - unfold expressionIDHandler. destruct (negb _); [done|].
    destruct (slice_from _ _) as [id|]; [|done].
    destruct (exprStore o !! id) as [expr|]; [|done].
    by destruct (expr_AST expr) as [|[] ? ? ? ? ?].
  - rewrite getTaskHandler_fails. apply rtc_refl.
  - unfold postTaskHandler. destruct (Body r) as [req|]; [|done].
    destruct (CompleteTask _ _ _) as [db'|err] eqn:Hc; [|done].
    cbn. apply rtc_once. by eapply db_complete.
Qed.

Lemma run_db_steps (ParseAST : string -> ASTNode + string)
    (calls : list (Endpoint * Z * Request)) (o : Orchestrator) :
  rtc db_step (Storage o) (Storage (run ParseAST o calls)).
Proof.
  revert o. induction calls as [|c calls IH]; intros o; [done|].
  change (run ParseAST o (c :: calls))
    with (run ParseAST (serve ParseAST o c) calls).
  etrans; [apply serve_db_steps|apply IH].
Qed.

(** An invariant of the three statements is an invariant of every run. *)
Lemma run_db_invariant (P : DB -> Prop)
    (ParseAST : string -> ASTNode + string)
    (calls : list (Endpoint * Z * Request)) (o : Orchestrator) :
  (forall db db', db_step db db' -> P db -> P db') ->
  P (Storage o) -> P (Storage (run ParseAST o calls)).
Proof.
  intros Hstep H0.
  induction (run_db_steps ParseAST calls o) as [|db1 db2 db3 Hs _ IH]; [done|].
  apply IH. by eapply Hstep.
Qed.

(** What each statement does to the table of tasks. *)
Lemma db_step_tasks (db db' : DB) :
  db_step db db' ->
  exists h : TaskRow -> TaskRow,
    tasks db' = map h (tasks db) /\
    (forall r, task_key (h r) = task_key r) /\
    (forall r, tr_completed r = true -> tr_completed (h r) = true) /\
    users db' = users db.
Proof.
  intros [db0 db1 id res Hc|db0 db1 u text now e Hc|db0 id].
  - unfold CompleteTask in Hc.
    destruct (List.filter _ (tasks db0)) as [|row rows]; [done|].
    exists (fun r => if sql_id_eq (tr_id r) id then set_completed r res else r).
    destruct (Nat.eqb _ 0); injection Hc as <-;
      (split; [reflexivity|]); repeat split; intros r;
      by destruct (sql_id_eq _ _).
  - unfold CreateExpression in Hc. destruct (existsb _ _); [|done].
    injection Hc as _ <-. exists (fun r => r). cbn.
    by rewrite map_id.
  - exists (fun r => r). cbn. by rewrite map_id.
Qed.

Lemma db_step_completed_id (id : string) (db db' : DB) :
  db_step db db' -> completed_id db id -> completed_id db' id.
Proof.
  intros (h & Ht & Hk & Hc & _)%db_step_tasks H. unfold completed_id in *.
  rewrite Ht. apply Forall_fmap. eapply Forall_impl; [exact H|]. cbn.
  intros r Hr Hid. apply Hc, Hr.
  specialize (Hk r). unfold task_key in Hk. injection Hk as Heq _ _ _ _ _.
  by rewrite <- Heq.
Qed.

Lemma CompleteTask_completed_id (db db' : DB) (id : string) (res : float) :
  CompleteTask db id res = Ok db' -> completed_id db' id.
Proof.
  unfold CompleteTask.
  destruct (List.filter _ (tasks db)) as [|row rows]; [done|].
  unfold completed_id.
  destruct (Nat.eqb _ 0); intros [= <-]; cbn; apply Forall_fmap,
    List.Forall_forall; intros r _; cbn;
    by destruct (sql_id_eq (tr_id r) id) eqn:Heq; cbn; rewrite ?Heq.
Qed.

(** X6.  The completion of a task is never undone: after [postTaskHandler]
    has answered [result accepted] for a task id, every row that the id
    selects is completed in every later state, whatever calls of the
    handlers follow. *)
Theorem completed_task_stays_completed (ParseAST : string -> ASTNode + string)
    (o o1 : Orchestrator) (now : Z) (r : Request) (req : DecodedBody)
    (calls : list (Endpoint * Z * Request)) :
  Body r = Some req ->
  postTaskHandler o now r =
    Responded o1 (mkResponse StatusOK (JSONStatus "result accepted")) ->
  completed_id (Storage (run ParseAST o1 calls)) (json_id req).
Proof.
  intros Hbody Hpost. unfold postTaskHandler in Hpost.
  rewrite Hbody in Hpost.
  destruct (CompleteTask _ _ _) as [db'|err] eqn:Hc; [|done].
  injection Hpost as <-.
  apply run_db_invariant; [apply db_step_completed_id|].
  cbn. by eapply CompleteTask_completed_id.
Qed.

Lemma completed_task_stays_completed_witness :
  completed_id
    (Storage (run ParseAST_spec
                (serve ParseAST_spec o_division_by_zero
                       (PostTask, 25, result_request "02" 4))
                [(Calculate, 30, calc_request 1 "1+1");
                 (GetTask, 35, fetch_request);
                 (PostTask, 40, result_request "1" 5)]))
    "02".
Proof.
  exact (completed_task_stays_completed ParseAST_spec o_division_by_zero
           (serve ParseAST_spec o_division_by_zero
                  (PostTask, 25, result_request "02" 4))
           25 (result_request "02" 4) (mkBody "" "02" 4)
           [(Calculate, 30, calc_request 1 "1+1");
            (GetTask, 35, fetch_request);
            (PostTask, 40, result_request "1" 5)]
           eq_refl eq_refl).
Defined.

Lemma filter_length_0 {A : Type} (f : A -> bool) (l : list A) :
  length (List.filter f l) = 0%nat -> Forall (fun x => f x = false) l.
Proof.
  induction l as [|x l IH]; cbn; [done|].
  destruct (f x) eqn:Hx; [done|]. intros H. constructor; auto.
Qed.

Lemma db_step_completed_have_no_pending (db db' : DB) :
  db_step db db' ->
  completed_have_no_pending db -> completed_have_no_pending db'.
Proof.
  intros Hstep Hinv.
  destruct (db_step_tasks _ _ Hstep) as (h & Ht & Hk & Hmono & _).
  assert (Hkeep : forall e, In e (expressions db) ->
            er_status e = "completed"%string ->
            Forall (fun t => tr_expression_id t = er_id e ->
                             tr_completed t = true) (tasks db')).
  { intros e He Hst. unfold completed_have_no_pending in Hinv.
    rewrite List.Forall_forall in Hinv. specialize (Hinv e He Hst).
    rewrite Ht. apply Forall_fmap. eapply Forall_impl; [exact Hinv|]. cbn.
    intros t Hold Hid. apply Hmono, Hold.
    specialize (Hk t). unfold task_key in Hk.
    injection Hk as _ Heq _ _ _ _. by rewrite <- Heq. }
  unfold completed_have_no_pending. apply List.Forall_forall. intros e' He' Hst.
  destruct Hstep as [db0 db1 id res Hc|db0 db1 u text now e Hc|db0 id].
  - unfold CompleteTask in Hc.
    destruct (List.filter _ (tasks db0)) as [|row rows]; [done|].
    destruct (Nat.eqb _ 0) eqn:Hcount; injection Hc as <-; cbn in *;
      [|by apply Hkeep].
    apply in_map_iff in He' as (e & <- & He).
    destruct (Z.eqb_spec (er_id e) (tr_expression_id row)) as [Heq|];
      [|by apply Hkeep].
    cbn. apply Nat.eqb_eq, filter_length_0 in Hcount.
    eapply Forall_impl; [exact Hcount|]. cbn. intros t Hf Hid.
    rewrite Hid, <- Heq, Z.eqb_refl in Hf. cbn in Hf.
    by destruct (tr_completed t).
  - unfold CreateExpression in Hc. destruct (existsb _ _); [|done].
    injection Hc as _ <-. cbn in *. apply in_app_iff in He' as [He'|[<-|[]]];
      [by apply Hkeep|done].
  - cbn in *. apply in_map_iff in He' as (e & <- & He).
    destruct (_ && _); [done|]. by apply Hkeep.
Qed.

(** X7.  Along every run of the handlers an expression is never marked
    [completed] while one of its tasks is not completed: if that holds of
    the database at the start, it holds after any calls. *)
Theorem completed_expressions_have_no_pending_task
    (ParseAST : string -> ASTNode + string) (o : Orchestrator)
    (calls : list (Endpoint * Z * Request)) :
  completed_have_no_pending (Storage o) ->
  completed_have_no_pending (Storage (run ParseAST o calls)).
Proof.
  apply run_db_invariant. apply db_step_completed_have_no_pending.
Qed.

Lemma completed_expressions_have_no_pending_task_witness :
  completed_have_no_pending
    (Storage (run ParseAST_spec o_division_by_zero
                [(GetTask, 20, fetch_request);
                 (PostTask, 25, result_request "2" 4)])).
Proof.
  apply (completed_expressions_have_no_pending_task ParseAST_spec
           o_division_by_zero).
  repeat first [apply List.Forall_nil | apply List.Forall_cons];
    vm_compute; congruence.
Defined.

(** X8.  No handler inserts or deletes a row of the table of tasks, or
    changes a column that is set when the row is inserted: along every run
    of the handlers the rows keep their place, id, expression, arguments,
    operation and duration.  ([CreateTask] is called by no handler, so the
    submission of an expression adds no row.) *)
Theorem task_rows_are_kept (ParseAST : string -> ASTNode + string)
    (o : Orchestrator) (calls : list (Endpoint * Z * Request)) :
  map task_key (tasks (Storage (run ParseAST o calls))) =
  map task_key (tasks (Storage o)).
Proof.
  apply (run_db_invariant
           (fun db => map task_key (tasks db) = map task_key (tasks (Storage o))));
    [|done].
  intros db db' (h & -> & Hk & _)%db_step_tasks <-.
  rewrite map_map. by apply map_ext.
Qed.

Lemma serve_exprStore_empty (ParseAST : string -> ASTNode + string)
    (o : Orchestrator) (c : Endpoint * Z * Request) :
  exprStore o = ∅ -> exprStore (serve ParseAST o c) = ∅.
Proof.
  intros H0. destruct c as [[e now] r]. unfold serve.
  destruct e; cbn [handler_of].
  - unfold calculateHandler. destruct (Body r) as [req|]; [|done].
    destruct (CreateExpression _ _ _ _) as [[expr db1]|err]; [|done].
    destruct (ParseAST _) as [ast|err]; [|done].
    pose proof (proj2 (Tasks_state (set_Storage o db1) (set_expr_AST expr ast)))
      as Hs.
    pose proof (proj2 (proj2 (proj2 (schedule_all_state
                  (expr_ID (set_expr_AST expr ast))
                  (ready_postorder [] (expr_AST (set_expr_AST expr ast)))
                  (set_Storage o db1))))) as He.
    rewrite <- Hs in He.
    destruct (Tasks _ _) as [e' o2]. cbn in He |- *. by rewrite He.
  - unfold expressionIDHandler. destruct (negb _); [done|].
    destruct (slice_from _ _) as [id|]; [|done].
    by rewrite H0, lookup_empty.
  - by rewrite getTaskHandler_fails.
  - unfold postTaskHandler. destruct (Body r) as [req|]; [|done].
    by destruct (CompleteTask _ _ _).
Qed.

(** X9.  No handler puts an expression into the in-memory store.  So from
    an orchestrator with an empty store, as [NewOrchestrator] makes it, a
    query for one expression by id never finds it, also after expressions
    were submitted: the answer is [Expression not found] (a panic when the
    path is shorter than the prefix). *)
Theorem expression_query_never_finds (ParseAST : string -> ASTNode + string)
    (o : Orchestrator) (calls : list (Endpoint * Z * Request)) (now : Z)
    (r : Request) :
  exprStore o = ∅ ->
  Method r = "GET"%string ->
  exprStore (run ParseAST o calls) = ∅ /\
  expressionIDHandler (run ParseAST o calls) now r =
    match slice_from (String.length "/api/v1/expressions/") (URLPath r) with
    | Some _ =>
        Responded (run ParseAST o calls)
                  (mkResponse StatusNotFound (JSONError "Expression not found"))
    | None => Panicked
    end.
Proof.
  intros H0 Hm.
  assert (He : exprStore (run ParseAST o calls) = ∅).
  { revert o H0. induction calls as [|c calls IH]; intros o H0; [done|].
    change (run ParseAST o (c :: calls))
      with (run ParseAST (serve ParseAST o c) calls).
    by apply IH, serve_exprStore_empty. }
  split; [done|]. unfold expressionIDHandler.
  rewrite Hm, String.eqb_refl. cbn [negb].
  destruct (slice_from _ (URLPath r)) as [id|]; [|done].
  by rewrite He, lookup_empty.
Qed.

Lemma expression_query_never_finds_witness :
  exprStore o_2_plus_2_times_2 = ∅ /\
  expressionIDHandler o_2_plus_2_times_2 20 (query_request "Bearer 1" "1") =
    Responded o_2_plus_2_times_2
              (mkResponse StatusNotFound (JSONError "Expression not found")).
Proof.
  exact (expression_query_never_finds ParseAST_spec
           (NewOrchestrator ∅ db_one_user)
           [(Calculate, 10, calc_request 1 "2+2*2")] 20
           (query_request "Bearer 1" "1") eq_refl eq_refl).
Defined.

(* ================================================================== *)
(** * 19. Further properties: the table of expressions                 *)
(* ================================================================== *)

(** What each statement does to the table of expressions: it rewrites the
    status (and result) of rows in place, or it appends one pending row with
    the next id. *)
Lemma db_step_expressions (db db' : DB) :
  db_step db db' ->
  (exists k : ExprRow -> ExprRow,
     expressions db' = map k (expressions db) /\
     (forall e, expression_key (k e) = expression_key e) /\
     (forall e, k e = e \/ er_status (k e) = "completed"%string \/
                er_status (k e) = "error"%string) /\
     expressions_seq db' = expressions_seq db) \/
  (exists row,
     expressions db' = expressions db ++ [row] /\
     er_id row = expressions_seq db + 1 /\
     er_status row = "pending"%string /\ er_result row = None /\
     expressions_seq db' = expressions_seq db + 1).
Proof.
  intros [db0 db1 id res Hc|db0 db1 u text now e Hc|db0 id].
  - left. unfold CompleteTask in Hc.
    destruct (List.filter _ (tasks db0)) as [|row rows]; [done|].
    destruct (Nat.eqb _ 0); injection Hc as <-; cbn.
    + eexists. split; [reflexivity|]. repeat split; intros e;
        destruct (er_id e =? _); auto.
    + exists (fun e => e). rewrite map_id. repeat split; auto.
  - right. unfold CreateExpression in Hc. destruct (existsb _ _); [|done].
    injection Hc as _ <-. eexists. cbn. repeat split.
  - left. eexists. split; [reflexivity|]. cbn. repeat split; intros e;
      destruct (_ && _); auto.
Qed.

Lemma db_step_integrity (db0 db db' : DB) :
  db_step db db' ->
  db_keys_ok db /\
  Forall (fun e => valid_status (er_status e)) (expressions db) /\
  map expression_key (expressions db0) `prefix_of`
    map expression_key (expressions db) ->
  db_keys_ok db' /\
  Forall (fun e => valid_status (er_status e)) (expressions db') /\
  map expression_key (expressions db0) `prefix_of`
    map expression_key (expressions db').
Proof.
  intros Hstep ([Hnd Hseq] & Hst & Hpre).
  destruct (db_step_expressions _ _ Hstep)
    as [(k & He & Hk & Hstatus & Hs)|(row & He & Hid & Hp & _ & Hs)].
  - assert (Hkeys : map expression_key (expressions db') =
                    map expression_key (expressions db)).
    { rewrite He, map_map. by apply map_ext. }
    assert (Hids : map er_id (expressions db') = map er_id (expressions db)).
    { rewrite He, map_map. apply map_ext. intros e.
      specialize (Hk e). unfold expression_key in Hk. by injection Hk. }
    repeat split.
    + by rewrite Hids.
    + rewrite He, Hs. apply Forall_fmap. eapply Forall_impl; [exact Hseq|].
      cbn. intros e Hle. specialize (Hk e). unfold expression_key in Hk.
      injection Hk as -> _ _ _. done.
    + rewrite He. apply Forall_fmap. eapply Forall_impl; [exact Hst|]. cbn.
      intros e Hv. destruct (Hstatus e) as [->|[->| ->]]; [done|..];
        unfold valid_status; auto.
    + by rewrite Hkeys.
  - repeat split.
    + rewrite He, map_app. cbn. apply NoDup_ListNoDup, NoDup_app.
      split; [by apply NoDup_ListNoDup|]. split; [|apply NoDup_singleton].
      intros id Hin ->%list_elem_of_singleton.
      apply list_elem_of_fmap in Hin as (e & Heq & Hin).
      rewrite List.Forall_forall in Hseq. apply list_elem_of_In in Hin.
      specialize (Hseq e Hin). lia.
    + rewrite He, Hs. apply Forall_app. split.
      * eapply Forall_impl; [exact Hseq|]. cbn. intros. lia.
      * repeat constructor. lia.
    + rewrite He. apply Forall_app. split; [done|].
      repeat constructor. rewrite Hp. unfold valid_status. auto.
    + rewrite He, map_app. etrans; [exact Hpre|]. by apply prefix_app_r.
Qed.

(** X10.  Along every run of the handlers the table of expressions keeps
    its integrity: no id occurs twice and none is beyond the sequence of the
    key; every status is one of [pending], [error], [completed]; and the
    rows that were there are still there, in place, with the id, owner,
    text and creation time they had. *)
Theorem expressions_integrity (ParseAST : string -> ASTNode + string)
    (o : Orchestrator) (calls : list (Endpoint * Z * Request)) :
  db_keys_ok (Storage o) ->
  Forall (fun e => valid_status (er_status e)) (expressions (Storage o)) ->
  db_keys_ok (Storage (run ParseAST o calls)) /\
  Forall (fun e => valid_status (er_status e))
         (expressions (Storage (run ParseAST o calls))) /\
  map expression_key (expressions (Storage o)) `prefix_of`
    map expression_key (expressions (Storage (run ParseAST o calls))).
Proof.
  intros Hk Hv.
  apply (run_db_invariant
           (fun db => db_keys_ok db /\
                      Forall (fun e => valid_status (er_status e))
                             (expressions db) /\
                      map expression_key (expressions (Storage o)) `prefix_of`
                        map expression_key (expressions db))).
  - intros db db'. apply db_step_integrity.
  - done.
Qed.

Lemma expressions_integrity_witness :
  db_keys_ok (Storage (run ParseAST_spec o_division_by_zero
                         [(Calculate, 30, calc_request 1 "2+a");
                          (PostTask, 35, result_request "2" 4)])) /\
  Forall (fun e => valid_status (er_status e))
         (expressions (Storage (run ParseAST_spec o_division_by_zero
                         [(Calculate, 30, calc_request 1 "2+a");
                          (PostTask, 35, result_request "2" 4)]))) /\
  map expression_key (expressions (Storage o_division_by_zero)) `prefix_of`
    map expression_key
      (expressions (Storage (run ParseAST_spec o_division_by_zero
                         [(Calculate, 30, calc_request 1 "2+a");
                          (PostTask, 35, result_request "2" 4)]))).
Proof.
  apply (expressions_integrity ParseAST_spec o_division_by_zero).
  - split.
    + repeat first [apply List.NoDup_nil | apply List.NoDup_cons];
        cbn; intuition congruence.
    + repeat first [apply List.Forall_nil | apply List.Forall_cons];
        vm_compute; congruence.
  - repeat first [apply List.Forall_nil | apply List.Forall_cons];
      unfold valid_status; cbn; auto.
Defined.

(** X12.  [CreateExpression] fails exactly for a user id that no row of
    [users] has, and then changes nothing.  For a registered user it appends
    one [pending] row without result, owned by the user; on a table whose
    keys are in order the id of the row is new, and the keys are in order
    afterwards.  The returned record carries the decimal id of the row. *)
Theorem CreateExpression_fresh (db : DB) (userID : Z) (text : string) (now : Z) :
  db_keys_ok db ->
  match CreateExpression db userID text now with
  | Err _ => ~ In userID (map ur_id (users db))
  | Ok (expr, db') =>
      In userID (map ur_id (users db)) /\
      ~ In (expressions_seq db + 1) (map er_id (expressions db)) /\
      expressions db' =
        expressions db ++
        [mkExprRow (expressions_seq db + 1) userID text "pending" None now] /\
      expr = mkExpression (Sprintf_d (expressions_seq db + 1)) userID text
                          "pending" None now nil_node /\
      db_keys_ok db' /\
      users db' = users db /\ tasks db' = tasks db
  end.
Proof.
  intros Hk. unfold CreateExpression.
  destruct (existsb _ _) eqn:Hex.
  - apply existsb_exists in Hex as (u & Hu & Hid%Z.eqb_eq).
    destruct Hk as [Hnd Hseq].
    assert (Hnew : ~ In (expressions_seq db + 1) (map er_id (expressions db))).
    { intros (e & Heq & Hin)%in_map_iff.
      rewrite List.Forall_forall in Hseq. specialize (Hseq e Hin). lia. }
    repeat split; try done.
    + apply in_map_iff. by exists u.
    + cbn. rewrite map_app. cbn. apply NoDup_ListNoDup, NoDup_app.
      split; [by apply NoDup_ListNoDup|]. split; [|apply NoDup_singleton].
      intros id Hin ->%list_elem_of_singleton.
      by apply Hnew, list_elem_of_In.
    + cbn. apply Forall_app. split.
      * eapply Forall_impl; [exact Hseq|]. cbn. intros. lia.
      * repeat constructor. cbn. lia.
  - intros (u & <- & Hin)%in_map_iff.
    assert (existsb (fun u0 => ur_id u0 =? ur_id u) (users db) = true).
    { apply existsb_exists. exists u. split; [done|]. apply Z.eqb_refl. }
    congruence.
Qed.

Lemma CreateExpression_fresh_witness :
  In 1 (map ur_id (users db_one_task)) /\
  ~ In (1 + 1) (map er_id (expressions db_one_task)) /\
  expressions (mkDB (users db_one_task)
                 (expressions db_one_task ++
                  [mkExprRow 2 1 "3*3" "pending" None 50])
                 (tasks db_one_task) 2) =
    expressions db_one_task ++ [mkExprRow (1 + 1) 1 "3*3" "pending" None 50] /\
  mkExpression "2" 1 "3*3" "pending" None 50 nil_node =
    mkExpression (Sprintf_d (1 + 1)) 1 "3*3" "pending" None 50 nil_node /\
  db_keys_ok (mkDB (users db_one_task)
                (expressions db_one_task ++
                 [mkExprRow 2 1 "3*3" "pending" None 50])
                (tasks db_one_task) 2) /\
  users db_one_task = users db_one_task /\
  tasks db_one_task = tasks db_one_task.
Proof.
  apply (CreateExpression_fresh db_one_task 1 "3*3" 50).
  split.
  - repeat first [apply List.NoDup_nil | apply List.NoDup_cons];
      cbn; intuition congruence.
  - repeat first [apply List.Forall_nil | apply List.Forall_cons];
      vm_compute; congruence.
Defined.

(** ** The listing of the expressions of a user *)

Lemma insert_by_created_at_Permutation (r : ExprRow) (l : list ExprRow) :
  Permutation (insert_by_created_at r l) (r :: l).
Proof.
  induction l as [|x l IH]; [done|]. cbn.
  destruct (er_created_at x <=? er_created_at r); [done|].
  rewrite IH. apply perm_swap.
Qed.

Lemma order_by_created_at_desc_Permutation (l : list ExprRow) :
  Permutation (order_by_created_at_desc l) l.
Proof.
  induction l as [|x l IH]; [done|]. cbn.
  rewrite insert_by_created_at_Permutation. by constructor.
Qed.

Lemma newest_first_insert (userID : Z) (r : ExprRow) (l : list ExprRow) :
  newest_first (map (scan_expression userID) l) ->
  newest_first (map (scan_expression userID) (insert_by_created_at r l)).
Proof.
  induction l as [|x l IH]; [by repeat constructor|].
  cbn [insert_by_created_at].
  destruct (Z.leb_spec (er_created_at x) (er_created_at r)) as [Hle|Hlt].
  - intros Hs. cbn [map newest_first]. split; [|done].
    destruct Hs as [Hx _]. constructor; [done|].
    eapply Forall_impl; [exact Hx|]. cbn in *. intros. lia.
  - cbn [map newest_first]. intros [Hx Hs]. split; [|by apply IH].
    eapply Permutation_Forall.
    { apply Permutation_map. symmetry. apply insert_by_created_at_Permutation. }
    constructor; [cbn; lia|done].
Qed.

Lemma newest_first_order (userID : Z) (l : list ExprRow) :
  newest_first (map (scan_expression userID) (order_by_created_at_desc l)).
Proof.
  induction l as [|x l IH]; [done|]. cbn. by apply newest_first_insert.
Qed.

(** X13.  The listing of expressions shows a user the own expressions only:
    [expressionsHandler] answers 200 with exactly the rows of the table that
    belong to the user of the request (each once, none of another user),
    newest first, and changes no state. *)
Theorem expressionsHandler_own_expressions (o : Orchestrator) (r : Request) :
  let userID := GetUserIDFromContext r in
  let '(o', code, exprs) := expressionsHandler o r in
  o' = o /\ code = StatusOK /\
  exprs = GetExpressions (Storage o) userID /\
  Permutation exprs
    (map (scan_expression userID)
         (List.filter (fun e => er_user_id e =? userID)
                      (expressions (Storage o)))) /\
  Forall (fun e => expr_UserID e = userID) exprs /\
  newest_first exprs.
Proof.
  cbn. repeat split.
  - unfold GetExpressions. by rewrite order_by_created_at_desc_Permutation.
  - unfold GetExpressions. by apply Forall_fmap, Forall_true.
  - apply newest_first_order.
Qed.

Lemma order_by_created_at_desc_newest (l : list ExprRow) (n : ExprRow) :
  Forall (fun x => er_created_at x < er_created_at n) l ->
  order_by_created_at_desc (l ++ [n]) = n :: order_by_created_at_desc l.
Proof.
  induction 1 as [|x l Hx _ IH]; [done|].
  change (order_by_created_at_desc ((x :: l) ++ [n]))
    with (insert_by_created_at x (order_by_created_at_desc (l ++ [n]))).
  rewrite IH. cbn [insert_by_created_at].
  by destruct (Z.leb_spec (er_created_at n) (er_created_at x)); [lia|].
Qed.

(** X14.  A new expression heads the listing of its owner: when
    [CreateExpression] succeeds at a time later than the creation of the
    expressions the user has, [GetExpressions] returns the new expression
    first, followed by the listing as it was; the listings of the other
    users are as they were. *)
Theorem CreateExpression_listed_first (db db' : DB) (userID : Z)
    (text : string) (now : Z) (expr : Expression) :
  CreateExpression db userID text now = Ok (expr, db') ->
  Forall (fun e => er_user_id e = userID -> er_created_at e < now)
         (expressions db) ->
  GetExpressions db' userID = expr :: GetExpressions db userID /\
  forall other, other <> userID ->
    GetExpressions db' other = GetExpressions db other.
Proof.
  unfold CreateExpression. destruct (existsb _ _); [|done].
  intros [= <- <-] Hnow. unfold GetExpressions. cbn [expressions].
  rewrite !List.filter_app. cbn [List.filter er_user_id]. split.
  - rewrite Z.eqb_refl, order_by_created_at_desc_newest; [done|].
    apply List.Forall_forall. intros e [He Hu%Z.eqb_eq]%filter_In.
    rewrite List.Forall_forall in Hnow. cbn. by apply Hnow.
  - intros other Hne. rewrite List.filter_app. cbn [List.filter er_user_id].
    destruct (Z.eqb_spec userID other); [done|].
    by rewrite app_nil_r.
Qed.

Lemma CreateExpression_listed_first_witness :
  GetExpressions
    (mkDB (users db_one_task)
          (expressions db_one_task ++ [mkExprRow 2 1 "3*3" "pending" None 50])
          (tasks db_one_task) 2) 1 =
    mkExpression "2" 1 "3*3" "pending" None 50 nil_node
    :: GetExpressions db_one_task 1 /\
  forall other, other <> 1 ->
    GetExpressions
      (mkDB (users db_one_task)
            (expressions db_one_task ++ [mkExprRow 2 1 "3*3" "pending" None 50])
            (tasks db_one_task) 2) other = GetExpressions db_one_task other.
Proof.
  apply (CreateExpression_listed_first db_one_task _ 1 "3*3" 50);
    [reflexivity|].
  repeat first [apply List.Forall_nil | apply List.Forall_cons];
    vm_compute; congruence.
Defined.

(* ================================================================== *)
(** * 20. Further properties: users, registration and login            *)
(* ================================================================== *)

Lemma next_user_id_fresh (db : DB) (u : UserRow) :
  In u (users db) -> ur_id u < next_user_id db.
Proof.
  unfold next_user_id. induction (users db) as [|x l IH]; [done|].
  cbn. intros [->|Hin]; [lia|]. specialize (IH Hin). lia.
Qed.

Lemma find_app {A : Type} (f : A -> bool) (l1 l2 : list A) :
  List.find f (l1 ++ l2) =
  match List.find f l1 with
  | Some x => Some x
  | None => List.find f l2
  end.
Proof. induction l1 as [|x l1 IH]; [done|]. cbn. by destruct (f x). Qed.

Lemma find_login_None (l : list UserRow) (login : string) :
  existsb (fun u => String.eqb (ur_login u) login) l = false ->
  List.find (fun u => String.eqb (ur_login u) login) l = None.
Proof.
  induction l as [|x l IH]; [done|]. cbn.
  destruct (String.eqb (ur_login x) login); [done|]. apply IH.
Qed.

Lemma find_login_Some (l : list UserRow) (login : string) :
  existsb (fun u => String.eqb (ur_login u) login) l = true ->
  exists u, List.find (fun u => String.eqb (ur_login u) login) l = Some u /\
            ur_login u = login.
Proof.
  induction l as [|x l IH]; [done|]. cbn.
  destruct (String.eqb (ur_login x) login) eqn:Hx; [|apply IH].
  intros _. exists x. split; [done|]. by apply String.eqb_eq.
Qed.

Lemma CreateUser_found (db db' : DB) (login password : string) (id : Z) :
  CreateUser db login password = Ok (id, db') ->
  GetUserByLogin db' login = Ok (mkUserRow id login password).
Proof.
  unfold CreateUser, insert_user, GetUserByLogin.
  destruct (existsb _ (users db)) eqn:Hex; [done|].
  intros [= <- <-]. cbn [users].
  rewrite find_app, (find_login_None _ _ Hex). cbn. by rewrite String.eqb_refl.
Qed.

(** X15.  [CreateUser] and [GetUserByLogin] fit together.  A login that is
    taken is refused with [ErrAlreadyExists].  A free login gets a row with
    an id that no user has, and then [GetUserByLogin] finds that row under
    the login, the lookups of all other logins are as before, and the
    logins stay pairwise different if they were. *)
Theorem CreateUser_GetUserByLogin (db : DB) (login password : string) :
  match CreateUser db login password with
  | Ok (id, db') =>
      GetUserByLogin db login = Err ErrNotFound /\
      GetUserByLogin db' login = Ok (mkUserRow id login password) /\
      (forall other, other <> login ->
         GetUserByLogin db' other = GetUserByLogin db other) /\
      ~ In id (map ur_id (users db)) /\
      (List.NoDup (map ur_login (users db)) ->
       List.NoDup (map ur_login (users db'))) /\
      expressions db' = expressions db /\ tasks db' = tasks db
  | Err e =>
      e = ErrAlreadyExists /\
      exists u, GetUserByLogin db login = Ok u /\ ur_login u = login
  end.
Proof.
  unfold CreateUser, insert_user, GetUserByLogin.
  destruct (existsb _ (users db)) eqn:Hex.
  - cbn. split; [done|].
    destruct (find_login_Some _ _ Hex) as (u & -> & Hu). by exists u.
  - pose proof (find_login_None _ _ Hex) as Hnone.
    cbn [users expressions tasks]. rewrite Hnone. repeat split.
    + rewrite find_app, Hnone. cbn. by rewrite String.eqb_refl.
    + intros other Hne. rewrite find_app.
      destruct (List.find (fun u => String.eqb (ur_login u) other) (users db));
        [done|]. cbn.
      by rewrite (proj2 (String.eqb_neq login other)) by congruence.
    + intros (u & Hid & Hin)%in_map_iff.
      pose proof (next_user_id_fresh db u Hin). lia.
    + intros Hnd. rewrite map_app. cbn.
      apply NoDup_ListNoDup, NoDup_app.
      split; [by apply NoDup_ListNoDup|]. split; [|apply NoDup_singleton].
      intros l Hin ->%list_elem_of_singleton.
      apply list_elem_of_fmap in Hin as (u & Heq & Hin).
      apply list_elem_of_In in Hin.
      assert (existsb (fun u0 => String.eqb (ur_login u0) login)
                      (users db) = true).
      { apply existsb_exists. exists u. split; [done|].
        apply String.eqb_eq. congruence. }
      congruence.
Qed.

Section Auth.

Variable HashPassword : string -> option string.
Variable CheckPasswordHash : string -> string -> bool.
Variable GenerateJWT : Z -> option string.

(** X16.  Registration and login fit together.  After [registerHandler] has
    answered 201 for a login and a password, a second registration of the
    login is refused with 409 [User already exists], and, when the password
    check accepts the password against the hash that was stored and a token
    can be made, [loginHandler] answers 200 with the token of the id that
    the registration returned. *)
Theorem register_then_login (o o1 : Orchestrator) (r : AuthRequest)
    (creds : Credentials) (id : Z) (hash token : string) :
  auth_Body r = Some creds ->
  registerHandler HashPassword o r =
    (o1, StatusCreated, Registered id (cred_Login creds)) ->
  HashPassword (cred_Password creds) = Some hash ->
  CheckPasswordHash (cred_Password creds) hash = true ->
  GenerateJWT id = Some token ->
  registerHandler HashPassword o1 r =
    (o1, StatusConflict, AuthError "User already exists") /\
  loginHandler CheckPasswordHash GenerateJWT o1 r =
    (o1, StatusOK, LoggedIn token id (cred_Login creds)).
Proof.
  intros Hbody Hreg Hhash Hcheck Htoken.
  unfold registerHandler in Hreg |- *. unfold loginHandler.
  destruct (negb _); [done|]. rewrite Hbody in Hreg |- *.
  destruct (_ || _); [done|]. rewrite Hhash in Hreg |- *.
  destruct (CreateUser (Storage o) _ _) as [[id' db']|err] eqn:Hcreate.
  - injection Hreg as <- <-.
    pose proof (CreateUser_found _ _ _ _ _ Hcreate) as Hfind.
    cbn [Storage set_Storage].
    rewrite Hfind. cbn [ur_password ur_id ur_login].
    rewrite Hcheck, Htoken. split; [|done].
    unfold CreateUser, insert_user. unfold GetUserByLogin in Hfind.
    destruct (existsb _ (users db')) eqn:Hex; [done|].
    by rewrite (find_login_None _ _ Hex) in Hfind.
  - by destruct err.
Qed.

(** X17.  [loginHandler] never changes the state, and it does not tell an
    unknown login from a wrong password: in both cases the answer is 401
    [Invalid credentials]. *)
Theorem loginHandler_invalid_credentials (o : Orchestrator) (r : AuthRequest) :
  fst (fst (loginHandler CheckPasswordHash GenerateJWT o r)) = o /\
  forall creds : Credentials,
    auth_Method r = "POST"%string ->
    auth_Body r = Some creds ->
    match GetUserByLogin (Storage o) (cred_Login creds) with
    | Ok user =>
        CheckPasswordHash (cred_Password creds) (ur_password user) = false
    | Err _ => True
    end ->
    loginHandler CheckPasswordHash GenerateJWT o r =
      (o, StatusUnauthorized, AuthError "Invalid credentials").
Proof.
  split.
  - unfold loginHandler. destruct (negb _); [done|].
    destruct (auth_Body r) as [req|]; [|done].
    destruct (GetUserByLogin _ _) as [user|[]]; try done.
    destruct (negb _); [done|]. by destruct (GenerateJWT _).
  - intros creds Hm Hbody Hbad. unfold loginHandler.
    rewrite Hm, String.eqb_refl, Hbody. cbn [negb].
    unfold GetUserByLogin in *.
    destruct (List.find _ _) as [user|]; [|done]. by rewrite Hbad.
Qed.

End Auth.

Lemma register_then_login_witness :
  registerHandler hash_example
    (set_Storage (NewOrchestrator ∅ db_one_user)
       (mkDB (users db_one_user ++ [mkUserRow 2 "ann" "hash:secret"]) [] [] 0))
    (auth_request "ann" "secret") =
    (set_Storage (NewOrchestrator ∅ db_one_user)
       (mkDB (users db_one_user ++ [mkUserRow 2 "ann" "hash:secret"]) [] [] 0),
     StatusConflict, AuthError "User already exists") /\
  loginHandler check_example token_example
    (set_Storage (NewOrchestrator ∅ db_one_user)
       (mkDB (users db_one_user ++ [mkUserRow 2 "ann" "hash:secret"]) [] [] 0))
    (auth_request "ann" "secret") =
    (set_Storage (NewOrchestrator ∅ db_one_user)
       (mkDB (users db_one_user ++ [mkUserRow 2 "ann" "hash:secret"]) [] [] 0),
     StatusOK, LoggedIn "2" 2 "ann").
Proof.
  exact (register_then_login hash_example check_example token_example
           (NewOrchestrator ∅ db_one_user) _ (auth_request "ann" "secret")
           (mkCredentials "ann" "secret") 2 "hash:secret" "2"
           eq_refl eq_refl eq_refl eq_refl eq_refl).
Defined.

Lemma loginHandler_invalid_credentials_witness :
  loginHandler check_example token_example (NewOrchestrator ∅ db_one_user)
               (auth_request "testuser" "guess") =
    (NewOrchestrator ∅ db_one_user, StatusUnauthorized,
     AuthError "Invalid credentials") /\
  loginHandler check_example token_example (NewOrchestrator ∅ db_one_user)
               (auth_request "nobody" "guess") =
    (NewOrchestrator ∅ db_one_user, StatusUnauthorized,
     AuthError "Invalid credentials").
Proof.
  split.
  - exact (proj2 (loginHandler_invalid_credentials check_example token_example
                    (NewOrchestrator ∅ db_one_user)
                    (auth_request "testuser" "guess"))
                 (mkCredentials "testuser" "guess") eq_refl eq_refl eq_refl).
  - exact (proj2 (loginHandler_invalid_credentials check_example token_example
                    (NewOrchestrator ∅ db_one_user)
                    (auth_request "nobody" "guess"))
                 (mkCredentials "nobody" "guess") eq_refl eq_refl I).
Defined.

(* ================================================================== *)
(** * 21. Further properties: the middleware and the query handler     *)
(* ================================================================== *)

Lemma prefix_append (pre s : string) : String.prefix pre (pre +:+ s) = true.
Proof.
  induction pre as [|a pre IH]; [by destruct s|].
  change (String.prefix (String a pre) (String a pre +:+ s))
    with (if ascii_dec a a then String.prefix pre (pre +:+ s) else false).
  by destruct (ascii_dec a a).
Qed.

Lemma substring_append (pre s : string) (n : nat) :
  String.substring (String.length pre) n (pre +:+ s) = String.substring 0 n s.
Proof. induction pre as [|a pre IH]; [done|]. exact IH. Qed.

Lemma substring_whole (s : string) :
  String.substring 0 (String.length s) s = s.
Proof. induction s as [|a s IH]; [done|]. cbn. by rewrite IH. Qed.

Lemma length_append (pre s : string) :
  (String.length (pre +:+ s) - String.length pre)%nat = String.length s.
Proof.
  induction pre as [|a pre IH]; [|exact IH].
  exact (Nat.sub_0_r (String.length s)).
Qed.

Lemma TrimPrefix_append (pre s : string) : TrimPrefix (pre +:+ s) pre = s.
Proof.
  unfold TrimPrefix.
  by rewrite prefix_append, length_append, substring_append, substring_whole.
Qed.

Lemma TrimPrefix_no_prefix (pre s : string) :
  String.prefix pre s = false -> TrimPrefix s pre = s.
Proof. unfold TrimPrefix. by intros ->. Qed.

Section Middleware.

Variable ParseAST : string -> ASTNode + string.
Variable ParseJWT : string -> option Z.

(** X18.  [authMiddleware] guards every path but the two public ones:
    without an [Authorization] header, with an empty token, or with a token
    that the token check refuses, the answer is 401 and the state is as it
    was, whatever the handler behind the middleware would do.  With a token
    that the check accepts the handler runs with the user id of the token,
    whatever user id the request carried before. *)
Theorem authMiddleware_guards (next : Handler) (o : Orchestrator) (now : Z)
    (r : Request) :
  is_public_path (URLPath r) = false ->
  match
    (if String.eqb (Authorization r) "" then None
     else if String.eqb (TrimPrefix (Authorization r) "Bearer ") "" then None
     else ParseJWT (TrimPrefix (Authorization r) "Bearer "))
  with
  | None =>
      exists msg,
        authMiddleware ParseJWT next o now r =
          Responded o (mkResponse StatusUnauthorized (JSONError msg))
  | Some userID =>
      authMiddleware ParseJWT next o now r = next o now (with_userID r userID) /\
      forall other : Z,
        authMiddleware ParseJWT next o now (with_userID r other) =
        authMiddleware ParseJWT next o now r
  end.
Proof.
  unfold is_public_path, authMiddleware. intros Hpub. rewrite Hpub.
  cbn [with_userID URLPath Authorization].
  destruct (String.eqb (Authorization r) ""); [by eexists|].
  destruct (String.eqb (TrimPrefix _ _) ""); [by eexists|].
  destruct (ParseJWT _) as [userID|]; [|by eexists].
  split; [done|]. intros other. by rewrite Hpub.
Qed.

(** X19.  The scheme [Bearer] in the header is optional: for each of the
    handlers, a request whose header is the bare token is treated like the
    request whose header is [Bearer ] followed by the token (for a token
    that is not empty and does not itself begin with [Bearer ]). *)
Theorem authMiddleware_bearer_optional (e : Endpoint) (o : Orchestrator)
    (now : Z) (r : Request) (token : string) :
  token <> ""%string ->
  String.prefix "Bearer " token = false ->
  authMiddleware ParseJWT (handler_of ParseAST e) o now
                 (with_Authorization r ("Bearer " +:+ token)) =
  authMiddleware ParseJWT (handler_of ParseAST e) o now
                 (with_Authorization r token).
Proof.
  intros Hne Hpre. unfold authMiddleware.
  cbn [with_Authorization URLPath Authorization].
  rewrite TrimPrefix_append, (TrimPrefix_no_prefix _ _ Hpre).
  rewrite (proj2 (String.eqb_neq token "")) by done.
  change (String.eqb ("Bearer " +:+ token) "") with false.
  destruct (_ || _); [by destruct e|].
  destruct (ParseJWT token); [|done]. by destruct e.
Qed.

End Middleware.

Lemma authMiddleware_guards_witness :
  exists msg,
    authMiddleware jwt_decimal (calculateHandler ParseAST_spec)
                   (NewOrchestrator ∅ db_one_user) 10
                   (calc_request 1 "2+2") =
      Responded (NewOrchestrator ∅ db_one_user)
                (mkResponse StatusUnauthorized (JSONError msg)).
Proof.
  exact (authMiddleware_guards jwt_decimal (calculateHandler ParseAST_spec)
           (NewOrchestrator ∅ db_one_user) 10 (calc_request 1 "2+2") eq_refl).
Defined.

Lemma authMiddleware_bearer_optional_witness :
  authMiddleware jwt_decimal (handler_of ParseAST_spec Calculate)
                 (NewOrchestrator ∅ db_one_user) 10
                 (with_Authorization (calc_request 7 "2+2") ("Bearer " +:+ "1")) =
  authMiddleware jwt_decimal (handler_of ParseAST_spec Calculate)
                 (NewOrchestrator ∅ db_one_user) 10
                 (with_Authorization (calc_request 7 "2+2") "1").
Proof.
  apply (authMiddleware_bearer_optional ParseAST_spec jwt_decimal Calculate);
    [discriminate|reflexivity].
Defined.

Lemma set_exprStore_twice (o : Orchestrator) (m m' : gmap string Expression) :
  set_exprStore (set_exprStore o m) m' = set_exprStore o m'.
Proof. done. Qed.

(** X20.  The query of one expression is idempotent: asked again against
    the state it left, [expressionIDHandler] gives the same answer and
    leaves the same state.  (The one thing it writes, the promotion of an
    expression whose tree is a leaf to [completed] with the value of the
    leaf as result, it writes once.)  It never touches the database, the
    queue or the task store. *)
Theorem expressionIDHandler_idempotent (o o1 : Orchestrator) (now now' : Z)
    (r : Request) (resp : Response) :
  expressionIDHandler o now r = Responded o1 resp ->
  expressionIDHandler o1 now' r = Responded o1 resp /\
  Storage o1 = Storage o /\ taskQueue o1 = taskQueue o /\
  taskStore o1 = taskStore o /\ taskCounter o1 = taskCounter o.
Proof.
  unfold expressionIDHandler. destruct (negb _); [by intros [= <- <-]|].
  destruct (slice_from _ (URLPath r)) as [id|]; [|done].
  destruct (exprStore o !! id) as [expr|] eqn:Hid;
    [|intros [= <- <-]; by rewrite Hid].
  destruct (expr_AST expr) as [|[] v op l rr sched] eqn:Hast;
    intros [= <- <-]; cbn [exprStore set_exprStore Storage taskQueue taskStore
                           taskCounter];
    rewrite ?Hid, ?Hast, ?lookup_insert_eq; cbn [expr_AST]; rewrite ?Hast;
    try done.
  rewrite set_exprStore_twice, insert_insert_eq. done.
Qed.

Lemma expressionIDHandler_idempotent_witness :
  expressionIDHandler o_with_expression 60 (query_request "" "7") =
    Responded o_with_expression
      (mkResponse StatusOK
         (JSONExpression (mkExpression "7" 1 "2+2" "pending" None 10
                            (Internal "+" (Leaf 2) (Leaf 2))))) /\
  Storage o_with_expression = Storage o_with_expression /\
  taskQueue o_with_expression = taskQueue o_with_expression /\
  taskStore o_with_expression = taskStore o_with_expression /\
  taskCounter o_with_expression = taskCounter o_with_expression.
Proof.
  exact (expressionIDHandler_idempotent o_with_expression o_with_expression
           50 60 (query_request "" "7") _ eq_refl).
Defined.

(* ================================================================== *)
(** * 22. Further properties: settings read from the environment       *)
(* ================================================================== *)

(** The loop of [ParseUint] on a text of digits whose value fits. *)
Lemma ParseUint_loop_digits (s : string) (n v : Z) :
  0 <= n -> digits_value n s = Some v -> v <= MaxUint64 ->
  ParseUint_loop n s = inl v.
Proof.
  revert n. induction s as [|c s IH]; intros n Hn; cbn.
  - by intros [= ->].
  - destruct (is_digit c) eqn:Hc; [|done]. intros Hv Hle. cbn [negb].
    assert (Hd : 0 <= digit_value c).
    { unfold is_digit in Hc. unfold digit_value.
      apply andb_true_iff in Hc as [Hc _]. apply Z.leb_le in Hc. lia. }
    assert (Hmono : forall (t : string) (a w : Z),
              0 <= a -> digits_value a t = Some w -> a <= w).
    { clear. induction t as [|c t IH]; intros a w Ha; cbn.
      - intros [= ->]. lia.
      - destruct (is_digit c) eqn:Hc; [|done]. intros Hw.
        assert (0 <= digit_value c).
        { unfold is_digit in Hc. unfold digit_value.
          apply andb_true_iff in Hc as [Hc _]. apply Z.leb_le in Hc. lia. }
        specialize (IH (a * 10 + digit_value c) w ltac:(lia) Hw). lia. }
    pose proof (Hmono s (n * 10 + digit_value c) v ltac:(lia) Hv) as Hle'.
    assert (Hmax : MaxUint64 = 18446744073709551615) by reflexivity.
    destruct (Z.leb_spec (MaxUint64 / 10 + 1) n) as [Hcut|_].
    { change (MaxUint64 / 10 + 1) with 1844674407370955162 in Hcut. lia. }
    destruct (Z.ltb_spec MaxUint64 (n * 10 + digit_value c)); [lia|].
    apply IH; [lia|done..].
Qed.

(** [strconv.Atoi] reads back what [%d] printed. *)
Lemma Atoi_Sprintf_d (n : Z) :
  MinInt64 <= n <= MaxInt64 -> Atoi (Sprintf_d n) = (n, false).
Proof.
  intros Hn. unfold Sprintf_d. destruct n as [|p|p]; [done| |].
  - change (pretty (Z.pos p)) with (pretty (N.pos p)).
    destruct (pretty_pos_digits p) as (c & rest & -> & Hc & Hv).
    unfold Atoi.
    replace (match String c rest with
             | String "-"%char rest0 => (true, rest0)
             | String "+"%char rest0 => (false, rest0)
             | _ => (false, String c rest)
             end) with (false, String c rest)
      by (symmetry; apply (is_digit_plain c rest Hc)).
    unfold ParseUint. rewrite (ParseUint_loop_digits _ 0 _ ltac:(done) Hv)
      by (unfold MaxInt64, MaxUint64 in *; lia).
    cbn [negb andb]. destruct (Z.leb_spec (2 ^ 63) (Z.pos p)).
    + unfold MaxInt64 in Hn. lia.
    + done.
  - change (pretty (Z.neg p)) with (String "-" (pretty (N.pos p))).
    destruct (pretty_pos_digits p) as (c & rest & -> & Hc & Hv).
    unfold Atoi, ParseUint.
    rewrite (ParseUint_loop_digits _ 0 _ ltac:(done) Hv)
      by (unfold MinInt64, MaxUint64 in *; lia).
    cbn [negb andb]. destruct (Z.ltb_spec (2 ^ 63) (Z.pos p)).
    + unfold MinInt64 in Hn. lia.
    + done.
Qed.

Lemma Atoi_range (s : string) : MinInt64 <= fst (Atoi s) <= MaxInt64.
Proof.
  unfold Atoi.
  destruct (match s with
            | String "-"%char rest => (true, rest)
            | String "+"%char rest => (false, rest)
            | _ => (false, s)
            end) as [neg body].
  assert (Hun : forall t n v, 0 <= n -> ParseUint_loop n t = inl v -> 0 <= v).
  { induction t as [|c t IH]; intros n v Hn; cbn.
    - intros [= <-]. done.
    - destruct (is_digit c) eqn:Hc; [|done]. cbn [negb].
      destruct (_ <=? n); [done|]. destruct (MaxUint64 <? _); [done|].
      apply IH. unfold is_digit in Hc. unfold digit_value.
      apply andb_true_iff in Hc as [Hc _]. apply Z.leb_le in Hc. lia. }
  destruct (ParseUint body) as [un|[]] eqn:Hp.
  - assert (0 <= un).
    { unfold ParseUint in Hp. destruct body; [done|]. by eapply Hun, Hp. }
    unfold MinInt64, MaxInt64.
    destruct neg; cbn [negb andb].
    + destruct (Z.ltb_spec (2 ^ 63) un); cbn; lia.
    + destruct (Z.leb_spec (2 ^ 63) un); cbn; lia.
  - cbn. unfold MinInt64, MaxInt64. lia.
  - unfold MinInt64, MaxInt64. destruct neg; cbn; lia.
Qed.

Lemma time_setting_decimal (env : gmap string string) (key : string) (n : Z) :
  MinInt64 <= n <= MaxInt64 -> n <> 0 ->
  time_setting (<[key := Sprintf_d n]> env) key = n.
Proof.
  intros Hn H0. unfold time_setting, Getenv.
  rewrite lookup_insert_eq. cbn. rewrite Atoi_Sprintf_d by done. cbn.
  by destruct (Z.eqb_spec n 0).
Qed.

Lemma time_setting_insert_ne (env : gmap string string) (key other v : string) :
  other <> key ->
  time_setting (<[other := v]> env) key = time_setting env key.
Proof.
  intros Hne. unfold time_setting, Getenv. by rewrite lookup_insert_ne.
Qed.

(** X22.  [Configuration] reads a cost that is set to the decimal text of
    an integer exactly: for four settings that are the texts of integers
    other than 0 in the [int64] range, the four configured costs are these
    integers; the other settings of the environment do not matter. *)
Theorem Configuration_reads_decimal (env : gmap string string)
    (ta ts tm td : Z) :
  MinInt64 <= ta <= MaxInt64 -> ta <> 0 ->
  MinInt64 <= ts <= MaxInt64 -> ts <> 0 ->
  MinInt64 <= tm <= MaxInt64 -> tm <> 0 ->
  MinInt64 <= td <= MaxInt64 -> td <> 0 ->
  let env' :=
    <["TIME_ADDITION_MS"%string := Sprintf_d ta]>
      (<["TIME_SUBTRACTION_MS"%string := Sprintf_d ts]>
         (<["TIME_MULTIPLICATIONS_MS"%string := Sprintf_d tm]>
            (<["TIME_DIVISIONS_MS"%string := Sprintf_d td]> env))) in
  TimeAddition (Configuration env') = ta /\
  TimeSubtraction (Configuration env') = ts /\
  TimeMultiplications (Configuration env') = tm /\
  TimeDivisions (Configuration env') = td.
Proof.
  intros Ha Ha0 Hs Hs0 Hm Hm0 Hd Hd0. cbv zeta. unfold Configuration.
  cbn [TimeAddition TimeSubtraction TimeMultiplications TimeDivisions].
  repeat split.
  - by apply time_setting_decimal.
  - rewrite time_setting_insert_ne by done. by apply time_setting_decimal.
  - rewrite !time_setting_insert_ne by done. by apply time_setting_decimal.
  - rewrite !time_setting_insert_ne by done. by apply time_setting_decimal.
Qed.

Lemma Configuration_reads_decimal_witness :
  let env' :=
    <["TIME_ADDITION_MS"%string := Sprintf_d 200]>
      (<["TIME_SUBTRACTION_MS"%string := Sprintf_d 200]>
         (<["TIME_MULTIPLICATIONS_MS"%string := Sprintf_d 300]>
            (<["TIME_DIVISIONS_MS"%string := Sprintf_d (-400)]>
               (∅ : gmap string string)))) in
  TimeAddition (Configuration env') = 200 /\
  TimeSubtraction (Configuration env') = 200 /\
  TimeMultiplications (Configuration env') = 300 /\
  TimeDivisions (Configuration env') = -400.
Proof.
  apply (Configuration_reads_decimal ∅ 200 200 300 (-400));
    unfold MinInt64, MaxInt64; lia.
Defined.

Lemma Start_workers_spec (ComputingPower : Z) :
  0 <= ComputingPower ->
  Z.of_nat (length (Start_workers ComputingPower)) = ComputingPower /\
  NoDup (Start_workers ComputingPower) /\
  forall i : Z, In i (Start_workers ComputingPower) <-> 0 <= i < ComputingPower.
Proof.
  intros Hcp. unfold Start_workers. split; [|split].
  - rewrite length_map, length_seq. lia.
  - apply (NoDup_fmap_2 Z.of_nat), NoDup_seq.
  - intros i. rewrite in_map_iff. split.
    + intros (k & <- & Hk). apply in_seq in Hk. lia.
    + intros Hi. exists (Z.to_nat i). split; [lia|]. apply in_seq. lia.
Qed.

(** X23.  An agent always has at least one worker: whatever the environment
    holds, the computing power that [NewAgent] settles on lies between 1 and
    the largest [int], the loop of [Start] launches exactly that many
    workers, and their ids are the integers from 0 below the computing
    power, each once. *)
Theorem NewAgent_at_least_one_worker (env : gmap string string) :
  let cp := fst (NewAgent_settings env) in
  1 <= cp <= MaxInt64 /\
  Z.of_nat (length (Start_workers cp)) = cp /\
  NoDup (Start_workers cp) /\
  forall i : Z, In i (Start_workers cp) <-> 0 <= i < cp.
Proof.
  cbv zeta.
  assert (Hcp : 1 <= fst (NewAgent_settings env) <= MaxInt64).
  { unfold NewAgent_settings.
    pose proof (Atoi_range (Getenv env "COMPUTING_POWER")) as Hr.
    destruct (Atoi (Getenv env "COMPUTING_POWER")) as [cp err]. cbn in Hr |- *.
    destruct err; cbn; [done|]. destruct (Z.ltb_spec cp 1); [done|lia]. }
  split; [done|]. apply Start_workers_spec. lia.
Qed.

(** X24.  [NewAgent] reads a computing power that is set to the decimal text
    of a positive integer of the [int] range exactly, and [Start] launches
    that many workers. *)
Theorem NewAgent_reads_decimal (env : gmap string string) (n : Z) :
  1 <= n <= MaxInt64 ->
  env !! "COMPUTING_POWER"%string = Some (Sprintf_d n) ->
  fst (NewAgent_settings env) = n /\
  length (Start_workers (fst (NewAgent_settings env))) = Z.to_nat n.
Proof.
  intros Hn Henv.
  assert (Hcp : fst (NewAgent_settings env) = n).
  { unfold NewAgent_settings, Getenv. rewrite Henv.
    change (default ""%string (Some (Sprintf_d n))) with (Sprintf_d n).
    rewrite Atoi_Sprintf_d by (unfold MinInt64, MaxInt64 in *; lia).
    cbn. by destruct (Z.ltb_spec n 1); [lia|]. }
  split; [done|]. rewrite Hcp. unfold Start_workers.
  by rewrite length_map, length_seq.
Qed.

Lemma NewAgent_reads_decimal_witness :
  fst (NewAgent_settings {["COMPUTING_POWER"%string := "3"%string]}) = 3 /\
  length (Start_workers
            (fst (NewAgent_settings {["COMPUTING_POWER"%string := "3"%string]})))
  = 3%nat.
Proof.
  apply (NewAgent_reads_decimal {["COMPUTING_POWER"%string := Sprintf_d 3]} 3).
  - unfold MaxInt64. lia.
  - apply lookup_singleton_eq.
Defined.
